(** * A shallow embedding of [bot.py], the forex signal bot

    The development follows the layout of the source file: the price
    history filled by the Deriv websocket callback, the two indicators,
    the signal classification, the alert worker and the Telegram commands.

    Modelling conventions.
    - Python floats are modelled by exact rationals ([Q]): every finite
      double is a rational, and the arithmetic is taken without rounding.
      Numeric results are therefore compared with [==] on [Q].
    - [np.exp] is a parameter of the development (a function [Q -> Q]).
    - Texts are [string]s of ASCII characters; [str.upper] and [int] are
      given for ASCII input.
    - The module-level dictionaries are fields of an explicit [state];
      dictionaries whose iteration order is observable are association
      lists in insertion order, the others are [gmap]s.
    - [SUPPORTED_PAIRS] is a section variable, so that the results hold for
      every configured list; [SUPPORTED_PAIRS_src] is the value the source
      file gives it. *)

From Stdlib Require Import ZArith QArith Qabs Qround Lia Lqa Ascii String List Bool.
From stdpp Require Import gmap strings list fin_maps pretty.
Import ListNotations.

Local Open Scope string_scope.
Local Open Scope list_scope.
Local Open Scope Z_scope.

(** ** Results of fallible code *)

Inductive exn : Type :=
| IndexError
| KeyError
| TypeError
| ValueError.

Inductive res (A : Type) : Type :=
| Ok (a : A)
| Raise (e : exn).
Arguments Ok {A} a.
Arguments Raise {A} e.

#[global] Instance res_ret : MRet res := fun A a => Ok a.
#[global] Instance res_bind : MBind res := fun A B f r =>
  match r with
  | Ok a => f a
  | Raise e => Raise e
  end.

(** ** Configuration (bot.py, lines 16-20) *)

Definition PRICE_HISTORY_LENGTH : nat := 50.
Definition SIGNAL_THRESHOLD : Q := 5 # 10000.
Definition SUPPORTED_PAIRS_src : list string := ["frxEURUSD"; "frxGBPUSD"].

(** ** Python built-ins used by the commands *)

(** [str.upper] on ASCII text. *)
Definition is_lower (c : ascii) : bool :=
  let n := nat_of_ascii c in ((97 <=? n) && (n <=? 122))%nat.

Definition ascii_upper (c : ascii) : ascii :=
  if is_lower c then ascii_of_nat (nat_of_ascii c - 32) else c.

Fixpoint upper (s : string) : string :=
  match s with
  | EmptyString => EmptyString
  | String c r => String (ascii_upper c) (upper r)
  end.

(** Whether a text holds a lower-case letter. *)
Fixpoint has_lower (s : string) : bool :=
  match s with
  | EmptyString => false
  | String c r => is_lower c || has_lower r
  end.

(** [int(text)] on ASCII text: an optional sign, then decimal digits,
    where single underscores may separate digits. Anything else raises
    [ValueError]. *)
Definition digit_of (c : ascii) : option Z :=
  let n := nat_of_ascii c in
  if ((48 <=? n) && (n <=? 57))%nat then Some (Z.of_nat (n - 48)) else None.

Fixpoint parse_digits (s : string) (acc : Z) (after_digit : bool) : option Z :=
  match s with
  | EmptyString => if after_digit then Some acc else None
  | String c r =>
      match digit_of c with
      | Some d => parse_digits r (10 * acc + d) true
      | None =>
          if Ascii.eqb c "_" && after_digit then parse_digits r acc false
          else None
      end
  end.

Definition py_int (s : string) : res Z :=
  let digits r := parse_digits r 0 false in
  let parsed :=
    match s with
    | String "-" r => Z.opp <$> digits r
    | String "+" r => digits r
    | _ => digits s
    end in
  match parsed with
  | Some z => Ok z
  | None => Raise ValueError
  end.

(** [x in xs] for a list of strings. *)
Definition py_in (x : string) (xs : list string) : bool :=
  bool_decide (x ∈ xs).

(** ** Insertion-ordered dictionaries

    [subscriptions[chat_id]] is iterated by [list_command] and
    [status_command], so its order is part of the behaviour: a Python
    dict keeps its keys in insertion order and an assignment to a key
    that is present keeps the key's position. *)
Module PyDict.
Section Defs.
Context {V : Type}.

Fixpoint get (d : list (string * V)) (k : string) : option V :=
  match d with
  | [] => None
  | (k', v) :: r => if String.eqb k' k then Some v else get r k
  end.

Fixpoint set (d : list (string * V)) (k : string) (v : V)
  : list (string * V) :=
  match d with
  | [] => [(k, v)]
  | (k', v') :: r =>
      if String.eqb k' k then (k', v) :: r else (k', v') :: set r k v
  end.

Definition mem (d : list (string * V)) (k : string) : bool :=
  match get d k with Some _ => true | None => false end.

Definition keys (d : list (string * V)) : list string := map fst d.
End Defs.
End PyDict.

(** ** Deriv websocket: the price history (bot.py, lines 30-40) *)

(** A decoded websocket message: a tick with its symbol and quote, or
    any message without a ["tick"] field. *)
Inductive message : Type :=
| Tick (symbol : string) (quote : Q)
| NoTick.

(** [list.pop(0)] *)
Definition pop0 {A : Type} (l : list A) : list A := tail l.

Definition on_message (prices : gmap string (list Q)) (m : message)
  : res (gmap string (list Q)) :=
  match m with
  | NoTick => Ok prices
  | Tick symbol quote =>
      match prices !! symbol with
      | None => Raise KeyError
      | Some l =>
          let l1 := l ++ [quote] in
          let l2 :=
            if (PRICE_HISTORY_LENGTH <? length l1)%nat then pop0 l1 else l1 in
          Ok (<[symbol := l2]> prices)
      end
  end.

(** The websocket application keeps running when a callback raises; the
    callback raises before it changes anything. *)
Definition feed_step (prices : gmap string (list Q)) (m : message)
  : gmap string (list Q) :=
  match on_message prices m with
  | Ok prices' => prices'
  | Raise _ => prices
  end.

Definition feed (msgs : list message) (prices : gmap string (list Q))
  : gmap string (list Q) :=
  fold_left feed_step msgs prices.

(** [prices = {pair: [] for pair in SUPPORTED_PAIRS}] *)
Definition initial_prices (supported : list string) : gmap string (list Q) :=
  list_to_map (map (fun pair => (pair, [])) supported).

(** The quotes received for one symbol, in arrival order. *)
Fixpoint quotes_of (symbol : string) (msgs : list message) : list Q :=
  match msgs with
  | [] => []
  | Tick s q :: r =>
      if String.eqb s symbol then q :: quotes_of symbol r
      else quotes_of symbol r
  | NoTick :: r => quotes_of symbol r
  end.

(** The last [n] elements of a list ([l[-n:]] for [n > 0]). *)
Definition lastn {A : Type} (n : nat) (l : list A) : list A :=
  drop (length l - n) l.

(** ** Indicators (bot.py, lines 58-76) *)

Definition Qltb (a b : Q) : bool := negb (Qle_bool b a).

(** [np.diff]: the differences of consecutive elements. *)
Fixpoint np_diff (l : list Q) : list Q :=
  match l with
  | a :: ((b :: _) as r) => (b - a)%Q :: np_diff r
  | _ => []
  end.

(** [array.sum()] *)
Definition np_sum (l : list Q) : Q := fold_left Qplus l 0%Q.

Definition calculate_rsi (prices_list : list Q) (period : nat) : option Q :=
  if (length prices_list <? period)%nat then None else
  let deltas := np_diff prices_list in
  let ups := (np_sum (filter (fun d => Qltb 0 d) deltas) / inject_Z (Z.of_nat period))%Q in
  let downs := (- np_sum (filter (fun d => Qltb d 0) deltas) / inject_Z (Z.of_nat period))%Q in
  if Qeq_bool downs 0 then Some 100%Q else
  let rs := (ups / downs)%Q in
  Some (100 - 100 / (1 + rs))%Q.

(** [np.linspace(start, stop, num)]: [num] evenly spaced samples, the
    last one being [stop] itself. A sample is a number, so it is kept in
    lowest terms. *)
Definition np_linspace (start stop : Q) (num : nat) : list Q :=
  let step := ((stop - start) / inject_Z (Z.of_nat (num - 1)))%Q in
  let y :=
    map (fun i => Qred (inject_Z (Z.of_nat i) * step + start)%Q) (seq 0 num) in
  if (1 <? num)%nat then <[(num - 1)%nat := stop]> y else y.

(** [a[-n:]]: the last [n] elements, and the whole list for [n = 0]. *)
Definition slice_last {A : Type} (n : nat) (l : list A) : list A :=
  if (n =? 0)%nat then l else lastn n l.

Definition dot (a v : list Q) : Q := np_sum (zip_with Qmult a v).

(** [np.correlate(a, v, mode='valid')] for [len(v) <= len(a)]: entry [k]
    is the dot product of [v] with the window of [a] that starts at [k]. *)
Definition np_correlate_valid (a v : list Q) : list Q :=
  map (fun k => dot (take (length v) (drop k a)) v)
      (seq 0 (length a - length v + 1)).

(** [np.convolve(a, v, mode='valid')]: the operands are swapped when [v]
    is the longer one, empty operands are refused, and the result is the
    correlation of [a] with the reversed [v]. *)
Definition np_convolve_valid (a v : list Q) : res (list Q) :=
  let '(a, v) := if (length a <? length v)%nat then (v, a) else (a, v) in
  if (length a =? 0)%nat then Raise ValueError
  else if (length v =? 0)%nat then Raise ValueError
  else Ok (np_correlate_valid a (rev v)).

(** [l[0]] *)
Definition index0 {A : Type} (l : list A) : res A :=
  match l with
  | x :: _ => Ok x
  | [] => Raise IndexError
  end.

(** [l[-1]] *)
Definition index_last {A : Type} (l : list A) : res A :=
  match last l with
  | Some x => Ok x
  | None => Raise IndexError
  end.

Section Indicators.
(** [np.exp] on scalars. *)
Variable np_exp : Q -> Q.

Definition ema_weights (period : nat) : list Q :=
  let weights := map np_exp (np_linspace (-1) 0 period) in
  let total := np_sum weights in
  map (fun w => (w / total)%Q) weights.

Definition calculate_ema (prices_list : list Q) (period : nat)
  : res (option Q) :=
  if (length prices_list <? period)%nat then Ok None else
  let prices_array := prices_list in
  let weights := ema_weights period in
  conv ← np_convolve_valid (slice_last period prices_array) weights;
  ema ← index0 conv;
  Ok (Some ema).
End Indicators.

(** ** Signal classification (bot.py, lines 78-99) *)

Inductive Signal : Type :=
| BUY
| SELL
| LOWER_RISK.

#[global] Instance Signal_eq_dec : EqDecision Signal.
Proof. solve_decision. Defined.

(** The line break of the description texts. *)
Definition nl : string := String (ascii_of_nat 10) EmptyString.

(** Rounding of a non-negative rational to the nearest integer, ties to
    the even one. *)
Definition round_half_even (q : Q) : Z :=
  let n := Qnum q in
  let d := Z.pos (Qden q) in
  let f := n / d in
  let r := n mod d in
  if 2 * r <? d then f
  else if d <? 2 * r then f + 1
  else if Z.even f then f else f + 1.

Definition digit_char (d : Z) : ascii := ascii_of_nat (48 + Z.to_nat d).

(** The lowest [width] decimal digits of [z], most significant first. *)
Fixpoint digits_fixed (width : nat) (z : Z) : string :=
  match width with
  | O => EmptyString
  | S w =>
      (digits_fixed w (z / 10) ++ String (digit_char (z mod 10)) EmptyString)%string
  end.

(** [f"{q:.<digits>f}"]: fixed-point notation with [digits] decimals. *)
Definition format_f (digits : nat) (q : Q) : string :=
  let scale := 10 ^ Z.of_nat digits in
  let m := round_half_even (Qabs q * inject_Z scale)%Q in
  ((if Qltb q 0 then "-" else "")
   ++ pretty (Z.to_N (m / scale))
   ++ (if (digits =? 0)%nat then ""
       else "." ++ digits_fixed digits (m mod scale)))%string.




(** The tuple [(signal, desc, img, current_price)] returned by
    [get_signal]; each component may be [None]. *)
Definition signal_result : Type :=
  (option Signal * option string * option string * option Q)%type.

Definition no_signal : signal_result := (None, None, None, None).

(** The body of [get_signal] once both indicators are known. *)
Definition classify (symbol : string) (rsi ema current_price : Q)
  : signal_result :=
  let tail := (symbol ++ nl ++ "RSI=" ++ format_f 2 rsi
               ++ ", EMA=" ++ format_f 5 ema)%string in
  if Qltb rsi 30 && Qltb ema current_price then
    (Some BUY, Some ("💹 Strong Buy for " ++ tail)%string,
     Some "buy.png", Some current_price)
  else if Qltb 70 rsi && Qltb current_price ema then
    (Some SELL, Some ("📉 Strong Sell for " ++ tail)%string,
     Some "sell.png", Some current_price)
  else
    (Some LOWER_RISK, Some ("⚪ Lower-Risk Trade for " ++ tail)%string,
     Some (if Qltb rsi 50 then "buy.png" else "sell.png"),
     Some current_price).

Section GetSignal.
Variable np_exp : Q -> Q.

Definition get_signal (prices : gmap string (list Q)) (symbol : string)
  : res signal_result :=
  let price_list := default [] (prices !! symbol) in
  if (length price_list <? 14)%nat then Ok no_signal else
  let rsi := calculate_rsi price_list 14 in
  ema ← calculate_ema np_exp price_list 14;
  current_price ← index_last price_list;
  match rsi, ema with
  | Some rsi, Some ema => Ok (classify symbol rsi ema current_price)
  | _, _ => Ok no_signal
  end.
End GetSignal.

(** ** Subscriptions and alert state (bot.py, lines 104-106)

    The module-level dictionaries [prices], [subscriptions], [last_sent]
    and [last_price], shared by the feed, the commands and the workers. *)

Record state : Type := mkState {
  prices : gmap string (list Q);
  subscriptions : gmap Z (list (string * Z));
  last_sent : gmap Z (gmap string (option Signal));
  last_price : gmap Z (gmap string (option Q))
}.

Definition initial_state (supported : list string) : state :=
  {| prices := initial_prices supported;
     subscriptions := ∅;
     last_sent := ∅;
     last_price := ∅ |}.

(** ** The alert worker (bot.py, lines 113-139) *)

(** What a worker does to the world, in program order. Opening the image
    and the call of the bot belong to the notification sink. *)
Inductive effect : Type :=
| SetLastSent (chat_id : Z) (pair : string) (signal : option Signal)
| SetLastPrice (chat_id : Z) (pair : string) (price : option Q)
| SendPhoto (chat_id : Z) (img : string) (caption : option string)
| SendMessage (chat_id : Z) (text : option string)
| Sleep (interval : Z).

Definition is_send (e : effect) : bool :=
  match e with
  | SendPhoto _ _ _ | SendMessage _ _ => true
  | _ => false
  end.

Definition is_store (e : effect) : bool :=
  match e with
  | SetLastSent _ _ _ | SetLastPrice _ _ _ => true
  | _ => false
  end.

Definition apply_effect (st : state) (e : effect) : state :=
  match e with
  | SetLastSent chat_id key signal =>
      {| prices := prices st;
         subscriptions := subscriptions st;
         last_sent := alter (fun d => <[key := signal]> d) chat_id (last_sent st);
         last_price := last_price st |}
  | SetLastPrice chat_id key price =>
      {| prices := prices st;
         subscriptions := subscriptions st;
         last_sent := last_sent st;
         last_price := alter (fun d => <[key := price]> d) chat_id (last_price st) |}
  | SendPhoto _ _ _ | SendMessage _ _ | Sleep _ => st
  end.

Definition run_effects (st : state) (es : list effect) : state :=
  fold_left apply_effect es st.

(** [last_sent[chat_id].get(pair)] and [last_price[chat_id].get(pair)]
    on a state; reading through a missing [chat_id] gives [None] here, the
    worker itself raises [KeyError] there (see [alert_iteration]). *)
Definition read {V : Type} (m : gmap Z (gmap string (option V)))
    (chat_id : Z) (key : string) : option V :=
  d ← m !! chat_id; v ← d !! key; v.

Definition last_signal_of (st : state) (chat_id : Z) (pair : string)
  : option Signal :=
  read (last_sent st) chat_id pair.

Definition last_price_of (st : state) (chat_id : Z) (pair : string)
  : option Q :=
  read (last_price st) chat_id pair.

(** The send of an iteration ([if img: ... else: ...]): the photo when
    the image name is not empty, the plain text otherwise. *)
Definition send_of (chat_id : Z) (desc img : option string) : effect :=
  match img with
  | Some (String c r) => SendPhoto chat_id (String c r) desc
  | _ => SendMessage chat_id desc
  end.

(** The lines of [alert_pair] before the loop. *)
Definition alert_pair_enter (st : state) (chat_id : Z) : state :=
  {| prices := prices st;
     subscriptions := subscriptions st;
     last_sent :=
       match last_sent st !! chat_id with
       | None => <[chat_id := ∅]> (last_sent st)
       | Some _ => last_sent st
       end;
     last_price :=
       match last_price st !! chat_id with
       | None => <[chat_id := ∅]> (last_price st)
       | Some _ => last_price st
       end |}.

(** The loop test: [subscriptions.get(chat_id, {}).get(pair, 0) > 0]. *)
Definition alert_running (st : state) (chat_id : Z) (pair : string) : bool :=
  0 <? default 0 (PyDict.get (default [] (subscriptions st !! chat_id)) pair).

Section AlertPair.
Variable np_exp : Q -> Q.

(** The value of [send_alert] after the [if]/[elif] of one iteration. *)
Definition send_alert_of (st : state) (chat_id : Z) (pair : string)
    (signal : option Signal) (price : option Q) : res bool :=
  let price_moved : res bool :=
    match last_price st !! chat_id with
    | None => Raise KeyError
    | Some d =>
        match d !! pair with
        | None => Ok false
        | Some (Some lp) =>
            match price with
            | Some p => Ok (Qle_bool SIGNAL_THRESHOLD (Qabs (p - lp)))
            | None => Raise TypeError
            end
        | Some None => Raise TypeError
        end
    end in
  match signal with
  | None => price_moved
  | Some _ =>
      match last_sent st !! chat_id with
      | None => Raise KeyError
      | Some d =>
          if bool_decide (default None (d !! pair) ≠ signal) then Ok true
          else price_moved
      end
  end.

(** One iteration of the [while] loop: the effects in program order,
    and the exception that ended the thread, if any. All reads of the
    iteration come before its writes. *)
Definition alert_iteration (st : state) (chat_id : Z) (pair : string)
    (interval : Z) : list effect * option exn :=
  match get_signal np_exp (prices st) pair with
  | Raise e => ([], Some e)
  | Ok (signal, desc, img, price) =>
      match send_alert_of st chat_id pair signal price with
      | Raise e => ([], Some e)
      | Ok false => ([Sleep interval], None)
      | Ok true =>
          match last_sent st !! chat_id with
          | None => ([], Some KeyError)
          | Some _ =>
              match last_price st !! chat_id with
              | None => ([SetLastSent chat_id pair signal], Some KeyError)
              | Some _ =>
                  ([SetLastSent chat_id pair signal;
                    SetLastPrice chat_id pair price;
                    send_of chat_id desc img;
                    Sleep interval], None)
              end
          end
      end
  end.
End AlertPair.

(** Whether an iteration called the bot. *)
Definition dispatched (r : list effect * option exn) : bool :=
  existsb is_send (fst r).

(** Whether an iteration assigned to the alert state. *)
Definition stored (r : list effect * option exn) : bool :=
  existsb is_store (fst r).

(** ** Commands (bot.py, lines 155-191) *)

(** The texts sent back to the chat, by the command that sends them. *)
Inductive reply : Type :=
| UsageSubscribe                            (* Usage: /subscribe PAIR INTERVAL_SECONDS *)
| UnsupportedPair (supported : list string) (* Unsupported pair. Supported: [...] *)
| Subscribed (pair : string) (interval : Z) (* Subscribed to PAIR with interval Ns! *)
| UsageUnsubscribe                          (* Usage: /unsubscribe PAIR *)
| Unsubscribed (pair : string)              (* Unsubscribed from PAIR *)
| NotSubscribed (pair : string)             (* You were not subscribed to PAIR *)
| NoActiveSubscriptions                     (* No active subscriptions. *)
| ActiveSubscriptions (lines : list (string * Z)).
                                            (* Active subscriptions: and one line per item *)

(** The arguments of a thread started on [alert_pair]. *)
Record thread : Type := mkThread {
  th_chat : Z;
  th_pair : string;
  th_interval : Z
}.

Definition with_subscriptions (st : state)
    (subs : gmap Z (list (string * Z))) : state :=
  {| prices := prices st;
     subscriptions := subs;
     last_sent := last_sent st;
     last_price := last_price st |}.

Section Commands.
Variable SUPPORTED_PAIRS : list string.

(** The new state, the threads started and the reply; [int] raises
    before anything is changed. *)
Definition subscribe_command (st : state) (chat_id : Z) (args : list string)
  : res (state * list thread * reply) :=
  match args with
  | arg0 :: arg1 :: _ =>
      let pair := upper arg0 in
      interval ← py_int arg1;
      if negb (py_in pair SUPPORTED_PAIRS) then
        Ok (st, [], UnsupportedPair SUPPORTED_PAIRS)
      else
        let subs := default [] (subscriptions st !! chat_id) in
        let st' :=
          with_subscriptions st
            (<[chat_id := PyDict.set subs pair interval]> (subscriptions st)) in
        Ok (st', [mkThread chat_id pair interval], Subscribed pair interval)
  | _ => Ok (st, [], UsageSubscribe)
  end.
End Commands.

(** A request is turned down when it leaves the state as it was, starts
    no thread and does not answer with the confirmation. *)
Definition turned_down (st : state) (r : res (state * list thread * reply))
  : Prop :=
  match r with
  | Ok (st', threads, answer) =>
      st' = st /\ threads = [] /\ forall p i, answer <> Subscribed p i
  | Raise _ => True
  end.

Definition unsubscribe_command (st : state) (chat_id : Z) (args : list string)
  : state * reply :=
  match args with
  | arg0 :: _ =>
      let pair := upper arg0 in
      match subscriptions st !! chat_id with
      | Some subs =>
          if PyDict.mem subs pair then
            (with_subscriptions st
               (<[chat_id := PyDict.set subs pair 0]> (subscriptions st)),
             Unsubscribed pair)
          else (st, NotSubscribed pair)
      | None => (st, NotSubscribed pair)
      end
  | [] => (st, UsageUnsubscribe)
  end.

Definition list_command (st : state) (chat_id : Z) : reply :=
  match subscriptions st !! chat_id with
  | None | Some [] => NoActiveSubscriptions
  | Some subs => ActiveSubscriptions subs
  end.

(** ** The running program

    The feed thread, the command handlers and the alert threads share the
    state. An event is one callback, one command, or one scheduling of an
    alert thread up to its next [time.sleep]. [status_command],
    [start_command] and [button_handler] change nothing and are left out. *)

Inductive phase : Type :=
| Started              (* the thread exists, [alert_pair] has not begun *)
| Looping              (* inside the [while] loop, asleep between polls *)
| Exited               (* the loop test failed, the thread returned *)
| Crashed (e : exn).   (* an exception ended the thread *)

Record worker : Type := mkWorker {
  w_thread : thread;
  w_phase : phase
}.




Record system : Type := mkSystem {
  sys_state : state;
  sys_workers : list worker
}.

Inductive event : Type :=
| EvMessage (m : message)
| EvSubscribe (chat_id : Z) (args : list string)
| EvUnsubscribe (chat_id : Z) (args : list string)
| EvList (chat_id : Z)
| EvWorker (i : nat).

Definition with_prices (st : state) (p : gmap string (list Q)) : state :=
  {| prices := p;
     subscriptions := subscriptions st;
     last_sent := last_sent st;
     last_price := last_price st |}.

Section Program.
Variable SUPPORTED_PAIRS : list string.
Variable np_exp : Q -> Q.

Definition worker_step (st : state) (w : worker) : state * worker :=
  let t := w_thread w in
  match w_phase w with
  | Started => (alert_pair_enter st (th_chat t), mkWorker t Looping)
  | Looping =>
      if alert_running st (th_chat t) (th_pair t) then
        let '(effects, raised) :=
          alert_iteration np_exp st (th_chat t) (th_pair t) (th_interval t) in
        (run_effects st effects,
         mkWorker t (match raised with
                     | None => Looping
                     | Some e => Crashed e
                     end))
      else (st, mkWorker t Exited)
  | Exited | Crashed _ => (st, w)
  end.

Definition step (sys : system) (ev : event) : system :=
  let st := sys_state sys in
  match ev with
  | EvMessage m =>
      mkSystem (with_prices st (feed_step (prices st) m)) (sys_workers sys)
  | EvSubscribe chat_id args =>
      match subscribe_command SUPPORTED_PAIRS st chat_id args with
      | Ok (st', threads, _) =>
          mkSystem st'
            (sys_workers sys ++ map (fun t => mkWorker t Started) threads)
      | Raise _ => sys
      end
  | EvUnsubscribe chat_id args =>
      mkSystem (fst (unsubscribe_command st chat_id args)) (sys_workers sys)
  | EvList _ => sys
  | EvWorker i =>
      match sys_workers sys !! i with
      | None => sys
      | Some w =>
          let '(st', w') := worker_step st w in
          mkSystem st' (<[i := w']> (sys_workers sys))
      end
  end.

Definition initial_system : system :=
  mkSystem (initial_state SUPPORTED_PAIRS) [].

Definition run (evs : list event) : system :=
  fold_left step evs initial_system.
End Program.

(** The price history that [get_signal] reads for a symbol. *)
Definition history (st : state) (symbol : string) : list Q :=
  default [] (prices st !! symbol).

(** What holds of the shared state while the program runs: an alert
    state is only ever stored for a pair whose history has reached 14
    samples, stored prices are numbers, and a thread inside its loop has
    created its two dictionaries. *)
Definition alert_state_inv (st : state) : Prop :=
  (forall chat_id d key v,
      last_sent st !! chat_id = Some d -> d !! key = Some v ->
      (14 <= length (history st key))%nat)
  /\ (forall chat_id d key v,
        last_price st !! chat_id = Some d -> d !! key = Some v ->
        (14 <= length (history st key))%nat /\ is_Some v).

Definition entered (st : state) (chat_id : Z) : Prop :=
  is_Some (last_sent st !! chat_id) /\ is_Some (last_price st !! chat_id).

Definition system_inv (sys : system) : Prop :=
  alert_state_inv (sys_state sys)
  /\ (forall i w, sys_workers sys !! i = Some w -> w_phase w = Looping ->
                 entered (sys_state sys) (th_chat (w_thread w)))
  /\ (forall chat_id d, subscriptions (sys_state sys) !! chat_id = Some d ->
                       NoDup (PyDict.keys d)).

(** A rational stand-in for [np.exp], for the examples: the Taylor
    polynomial of degree 2 at 0, in lowest terms. *)
Definition exp_taylor (x : Q) : Q := Qred (1 + x + x * x / 2)%Q.

(** Inputs of the examples: fifteen prices whose only fall is the first
    step, and fourteen prices of which only the oldest is not zero. *)
Definition rsi_example : list Q :=
  [10; 9; 10; 10; 10; 10; 10; 10; 10; 10; 10; 10; 10; 10; 10]%Q.

Definition ema_example : list Q := 1%Q :: repeat 0%Q 13.

(** A run of the examples, with "FRXEURUSD" configured: chat 1
    subscribes, its worker enters the loop, fourteen rising ticks arrive. *)
Definition rising_ticks : list event :=
  map (fun q => EvMessage (Tick "FRXEURUSD" q))
      [1; 2; 3; 4; 5; 6; 7; 8; 9; 10; 11; 12; 13; 14]%Q.

Definition example_run : list event :=
  [EvSubscribe 1 ["frxeurusd"; "5"]; EvWorker 0] ++ rising_ticks.

(** ** The specification's reading of the indicators

    These two definitions follow the words of the specification, to be
    compared with [calculate_rsi] and [calculate_ema]. *)

(** RSI over the most recent [period]-sample window only. *)
Definition spec_rsi (prices_list : list Q) (period : nat) : option Q :=
  if (length prices_list <? period)%nat then None else
  let deltas := np_diff (lastn period prices_list) in
  let gains := (np_sum (filter (fun d => Qltb 0 d) deltas) / inject_Z (Z.of_nat period))%Q in
  let losses := (- np_sum (filter (fun d => Qltb d 0) deltas) / inject_Z (Z.of_nat period))%Q in
  if Qeq_bool losses 0 then Some 100%Q
  else Some (100 - 100 / (1 + gains / losses))%Q.

(** EMA as the index-wise dot product of the last [period] prices with
    the normalised weights: oldest price with the first (smallest) weight. *)
Definition spec_ema (np_exp : Q -> Q) (prices_list : list Q) (period : nat)
  : option Q :=
  if (length prices_list <? period)%nat then None
  else Some (dot (lastn period prices_list) (ema_weights np_exp period)).

(** ** The other commands (bot.py, lines 144-153 and 193-217) *)

(** [sep.join(items)]: every item must be a string. *)
Fixpoint py_join (sep : string) (items : list (option string)) : res string :=
  match items with
  | [] => Ok EmptyString
  | None :: _ => Raise TypeError
  | Some s :: rest =>
      match rest with
      | [] => Ok s
      | _ => tail ← py_join sep rest; Ok (s ++ sep ++ tail)%string
      end
  end.

(** A list comprehension over a computation that may raise. *)
Fixpoint res_map {A B : Type} (f : A -> res B) (l : list A) : res (list B) :=
  match l with
  | [] => Ok []
  | x :: r => y ← f x; ys ← res_map f r; Ok (y :: ys)
  end.

(** The texts of [status_command]. *)
Inductive status_reply : Type :=
| StatusNoSubscriptions        (* No active subscriptions. Use /subscribe PAIR INTERVAL *)
| StatusText (text : string).  (* the descriptions, separated by an empty line *)

Section Status.
Variable np_exp : Q -> Q.

(** [_, desc, _, _ = get_signal(pair)] *)
Definition description_of (st : state) (key : string) : res (option string) :=
  r ← get_signal np_exp (prices st) key; Ok (snd (fst (fst r))).

Definition status_command (st : state) (chat_id : Z) : res status_reply :=
  match subscriptions st !! chat_id with
  | None | Some [] => Ok StatusNoSubscriptions
  | Some subs =>
      messages ← res_map (description_of st) (PyDict.keys subs);
      text ← py_join (nl ++ nl)%string messages;
      Ok (StatusText text)
  end.
End Status.


Section Buttons.
Variable SUPPORTED_PAIRS : list string.
Variable np_exp : Q -> Q.

End Buttons.



(** ** The worker as a loop

    [alert_pair] run alone, with nothing else touching the state: the
    lines before the loop, then at most [fuel] iterations. The result is
    the final state, all effects in order, and how the run ended. *)
Inductive loop_end : Type :=
| LoopExited            (* the loop test failed *)
| LoopRaised (e : exn)  (* an exception ended the thread *)
| LoopRunning.          (* still inside the loop when the fuel ran out *)

Section AlertLoop.
Variable np_exp : Q -> Q.

Fixpoint alert_loop (fuel : nat) (st : state) (chat_id : Z) (key : string)
    (interval : Z) : state * list effect * loop_end :=
  match fuel with
  | O => (st, [], LoopRunning)
  | S n =>
      if alert_running st chat_id key then
        let '(effects, raised) :=
          alert_iteration np_exp st chat_id key interval in
        let st1 := run_effects st effects in
        match raised with
        | Some e => (st1, effects, LoopRaised e)
        | None =>
            let '(st2, later, ending) := alert_loop n st1 chat_id key interval in
            (st2, effects ++ later, ending)
        end
      else (st, [], LoopExited)
  end.

Definition alert_pair (fuel : nat) (st : state) (chat_id : Z) (key : string)
    (interval : Z) : state * list effect * loop_end :=
  alert_loop fuel (alert_pair_enter st chat_id) chat_id key interval.
End AlertLoop.


(** The two parts of the alert state go together: a chat has both
    dictionaries or none, a pair is a key of both or of none, and a
    stored signal is a signal. *)
Definition paired (st : state) : Prop :=
  forall chat_id,
    (last_sent st !! chat_id = None <-> last_price st !! chat_id = None)
    /\ forall ds dp key,
         last_sent st !! chat_id = Some ds ->
         last_price st !! chat_id = Some dp ->
         (ds !! key = None <-> dp !! key = None)
         /\ forall v, ds !! key = Some v -> is_Some v.

(** * Properties *)

(** ** The price history *)

Lemma lastn_length {A : Type} (n : nat) (l : list A) :
  length (lastn n l) = (length l `min` n)%nat.
Proof. unfold lastn. rewrite length_drop. lia. Qed.

Lemma lastn_all {A : Type} (n : nat) (l : list A) :
  (length l <= n)%nat -> lastn n l = l.
Proof.
  intros H. unfold lastn.
  replace (length l - n)%nat with 0%nat by lia. reflexivity.
Qed.

(** Appending to a window of the last 50 and evicting the head on
    overflow gives the window of the last 50 again. *)
Lemma lastn_append_evict (L : list Q) (q : Q) :
  let l1 := lastn PRICE_HISTORY_LENGTH L ++ [q] in
  (if (PRICE_HISTORY_LENGTH <? length l1)%nat then pop0 l1 else l1)
  = lastn PRICE_HISTORY_LENGTH (L ++ [q]).
Proof.
  cbv zeta. rewrite length_app, lastn_length. simpl length.
  unfold PRICE_HISTORY_LENGTH, pop0, lastn.
  rewrite length_app. simpl length.
  destruct (Nat.ltb_spec 50 (length L `min` 50 + 1)) as [Hlt | Hge].
  - assert (50 <= length L)%nat as Hlen by lia.
    replace (length L + 1 - 50)%nat with (S (length L - 50)) by lia.
    rewrite <- (drop_app_le L [q] (length L - 50)) by lia.
    destruct (drop (length L - 50) (L ++ [q])) as [| x r] eqn:E.
    + apply (f_equal length) in E. rewrite length_drop, length_app in E.
      simpl in E. lia.
    + simpl. change r with (drop 1 (x :: r)). rewrite <- E.
      rewrite drop_drop. f_equal. lia.
  - replace (length L - 50)%nat with 0%nat by lia.
    replace (length L + 1 - 50)%nat with 0%nat by lia.
    reflexivity.
Qed.

Lemma quotes_of_app (symbol : string) (xs ys : list message) :
  quotes_of symbol (xs ++ ys) = quotes_of symbol xs ++ quotes_of symbol ys.
Proof.
  induction xs as [| [s q |] xs IH]; simpl; auto.
  destruct (String.eqb s symbol); simpl; congruence.
Qed.

Lemma initial_prices_lookup (supported : list string) (symbol : string) :
  initial_prices supported !! symbol
  = if bool_decide (symbol ∈ supported) then Some [] else None.
Proof.
  unfold initial_prices. induction supported as [| p r IH]; simpl.
  - rewrite lookup_empty. reflexivity.
  - destruct (decide (p = symbol)) as [-> | Hne].
    + rewrite lookup_insert_eq.
      rewrite bool_decide_eq_true_2 by (apply elem_of_cons; left; reflexivity).
      reflexivity.
    + rewrite lookup_insert_ne by assumption. rewrite IH.
      destruct (decide (symbol ∈ r)) as [Hr | Hr].
      * rewrite (bool_decide_eq_true_2 _ Hr).
        rewrite bool_decide_eq_true_2; [reflexivity |].
        apply elem_of_cons. right. exact Hr.
      * rewrite (bool_decide_eq_false_2 _ Hr).
        rewrite bool_decide_eq_false_2; [reflexivity |].
        intros H. apply elem_of_cons in H as [H | H]; [congruence | contradiction].
Qed.

(** The feed keeps, for every key of [prices], the last 50 quotes of that
    symbol, and never adds a key. *)
Lemma feed_lookup (supported : list string) (msgs : list message)
    (symbol : string) :
  feed msgs (initial_prices supported) !! symbol
  = if bool_decide (symbol ∈ supported)
    then Some (lastn PRICE_HISTORY_LENGTH (quotes_of symbol msgs))
    else None.
Proof.
  induction msgs as [| m msgs IH] using rev_ind.
  - simpl. rewrite initial_prices_lookup. reflexivity.
  - unfold feed in *. rewrite fold_left_app. simpl.
    rewrite quotes_of_app.
    set (p := fold_left feed_step msgs (initial_prices supported)) in *.
    unfold feed_step, on_message.
    destruct m as [s q |]; simpl.
    + destruct (p !! s) as [l |] eqn:Hs.
      * destruct (String.eqb_spec s symbol) as [-> | Hne].
        -- rewrite lookup_insert_eq. rewrite Hs in IH.
           destruct (bool_decide (symbol ∈ supported)); [| discriminate].
           injection IH as ->. f_equal. apply lastn_append_evict.
        -- rewrite lookup_insert_ne by assumption. rewrite app_nil_r. exact IH.
      * destruct (String.eqb_spec s symbol) as [-> | Hne].
        -- rewrite Hs in IH. rewrite Hs.
           destruct (bool_decide (symbol ∈ supported)); [discriminate | reflexivity].
        -- rewrite app_nil_r. exact IH.
    + rewrite app_nil_r. exact IH.
Qed.

(** C7. For every instrument and every sequence of feed messages, the
    stored history is never longer than 50; for a supported instrument it
    is exactly the last 50 quotes received for it, in arrival order, so
    after more than 50 ticks it holds the 50 most recent ones. *)
Theorem price_history_bounded_fifo (supported : list string)
    (msgs : list message) (symbol : string) :
  let store := feed msgs (initial_prices supported) in
  (forall l, store !! symbol = Some l -> (length l <= PRICE_HISTORY_LENGTH)%nat)
  /\ (symbol ∈ supported ->
      store !! symbol
      = Some (lastn PRICE_HISTORY_LENGTH (quotes_of symbol msgs))
      /\ ((PRICE_HISTORY_LENGTH < length (quotes_of symbol msgs))%nat ->
          exists l, store !! symbol = Some l
                    /\ length l = PRICE_HISTORY_LENGTH
                    /\ l = drop (length (quotes_of symbol msgs)
                                 - PRICE_HISTORY_LENGTH)
                                (quotes_of symbol msgs))).
Proof.
  cbv zeta. rewrite feed_lookup. split.
  - intros l Hl. destruct (bool_decide (symbol ∈ supported)); [| discriminate].
    injection Hl as <-. rewrite lastn_length. lia.
  - intros Hin. rewrite bool_decide_eq_true_2 by assumption.
    split; [reflexivity |].
    intros Hlen. eexists. split; [reflexivity |].
    split; [rewrite lastn_length; lia | reflexivity].
Qed.

(** ** Python built-ins *)

Lemma ascii_upper_not_lower (c : ascii) : is_lower (ascii_upper c) = false.
Proof. destruct c as [[] [] [] [] [] [] [] []]; reflexivity. Qed.

Lemma upper_no_lower (s : string) : has_lower (upper s) = false.
Proof.
  induction s as [| c r IH]; simpl; [reflexivity |].
  rewrite ascii_upper_not_lower, IH. reflexivity.
Qed.

(** An upper-cased text never equals a text with a lower-case letter. *)
Lemma upper_ne_lower (s p : string) : has_lower p = true -> upper s <> p.
Proof.
  intros Hp Heq. rewrite <- Heq, upper_no_lower in Hp. discriminate.
Qed.

(** ** Insertion-ordered dictionaries *)

Section PyDictFacts.
Context {V : Type}.
Implicit Types (d : list (string * V)) (k : string) (v : V).

Lemma PyDict_get_set_eq d k v : PyDict.get (PyDict.set d k v) k = Some v.
Proof.
  induction d as [| [k' v'] r IH]; simpl.
  - rewrite String.eqb_refl. reflexivity.
  - destruct (String.eqb k' k) eqn:E; simpl; rewrite E; auto.
Qed.

Lemma PyDict_get_set_ne d k k' v :
  k <> k' -> PyDict.get (PyDict.set d k v) k' = PyDict.get d k'.
Proof.
  intros Hne. induction d as [| [k0 v0] r IH]; simpl.
  - destruct (String.eqb_spec k k'); [contradiction | reflexivity].
  - destruct (String.eqb_spec k0 k) as [-> | Hk]; simpl.
    + destruct (String.eqb_spec k k'); [contradiction | reflexivity].
    + rewrite IH. reflexivity.
Qed.

Lemma PyDict_get_None d k : PyDict.get d k = None <-> k ∉ PyDict.keys d.
Proof.
  unfold PyDict.keys. induction d as [| [k' v'] r IH]; simpl.
  - split; [intros _; apply not_elem_of_nil | reflexivity].
  - rewrite not_elem_of_cons.
    destruct (String.eqb_spec k' k) as [-> | Hk].
    + split; [discriminate | intros [H _]; contradiction].
    + rewrite IH. split; [intros H; split; [congruence | exact H] | tauto].
Qed.

(** An assignment to a present key keeps every key at its place. *)
Lemma PyDict_keys_set_present d k v :
  PyDict.mem d k = true -> PyDict.keys (PyDict.set d k v) = PyDict.keys d.
Proof.
  unfold PyDict.mem, PyDict.keys. induction d as [| [k' v'] r IH]; simpl.
  - discriminate.
  - destruct (String.eqb k' k) eqn:E; simpl; [reflexivity |].
    intros H. rewrite IH by exact H. reflexivity.
Qed.

(** An assignment to a new key appends it. *)
Lemma PyDict_keys_set_absent d k v :
  PyDict.mem d k = false ->
  PyDict.keys (PyDict.set d k v) = PyDict.keys d ++ [k].
Proof.
  unfold PyDict.mem, PyDict.keys. induction d as [| [k' v'] r IH]; simpl.
  - reflexivity.
  - destruct (String.eqb k' k) eqn:E; simpl; [discriminate |].
    intros H. rewrite IH by exact H. reflexivity.
Qed.

Lemma PyDict_keys_set_NoDup d k v :
  NoDup (PyDict.keys d) -> NoDup (PyDict.keys (PyDict.set d k v)).
Proof.
  intros Hd. destruct (PyDict.mem d k) eqn:E.
  - rewrite PyDict_keys_set_present by exact E. exact Hd.
  - rewrite PyDict_keys_set_absent by exact E.
    apply NoDup_app. split; [exact Hd |]. split; [| apply NoDup_singleton].
    intros x Hx Hk. apply list_elem_of_singleton in Hk as ->.
    unfold PyDict.mem in E.
    destruct (PyDict.get d k) eqn:G; [discriminate |].
    apply PyDict_get_None in G. contradiction.
Qed.

Lemma PyDict_set_elem d k v : (k, v) ∈ PyDict.set d k v.
Proof.
  induction d as [| [k' v'] r IH]; simpl.
  - apply list_elem_of_singleton. reflexivity.
  - destruct (String.eqb_spec k' k) as [-> | Hk].
    + apply elem_of_cons. left. reflexivity.
    + apply elem_of_cons. right. exact IH.
Qed.
End PyDictFacts.

(** ** The subscribe command *)

(** What [subscribe_command] does with a well-formed request: it is
    accepted exactly when the upper-cased text is in the configured list. *)
Lemma subscribe_accepts (supported : list string) (st : state) (chat_id : Z)
    (arg0 arg1 : string) (rest : list string) (interval : Z) :
  upper arg0 ∈ supported -> py_int arg1 = Ok interval ->
  subscribe_command supported st chat_id (arg0 :: arg1 :: rest)
  = Ok (with_subscriptions st
          (<[chat_id := PyDict.set (default [] (subscriptions st !! chat_id))
                          (upper arg0) interval]> (subscriptions st)),
        [mkThread chat_id (upper arg0) interval],
        Subscribed (upper arg0) interval).
Proof.
  intros Hin Hint. unfold subscribe_command. rewrite Hint. simpl.
  unfold py_in. rewrite bool_decide_eq_true_2 by exact Hin. reflexivity.
Qed.

Lemma subscribe_refuses (supported : list string) (st : state) (chat_id : Z)
    (args : list string) :
  (forall text, upper text ∉ supported) ->
  turned_down st (subscribe_command supported st chat_id args).
Proof.
  intros Hno. unfold subscribe_command.
  destruct args as [| arg0 [| arg1 rest]]; simpl; try (repeat split; discriminate).
  destruct (py_int arg1) as [interval | e]; simpl; [| exact I].
  unfold py_in. rewrite bool_decide_eq_false_2 by apply Hno.
  simpl. repeat split; discriminate.
Qed.

Lemma upper_not_in_src (text : string) : upper text ∉ SUPPORTED_PAIRS_src.
Proof.
  unfold SUPPORTED_PAIRS_src. intros Hin.
  repeat (apply elem_of_cons in Hin as [Hin | Hin];
          [revert Hin; apply upper_ne_lower; reflexivity |]).
  apply not_elem_of_nil in Hin. exact Hin.
Qed.

(** C1. With the list of the source file, a subscribe request that names
    "frxEURUSD", a member of that list, is answered with the
    unsupported-pair text and stores nothing: the text is upper-cased
    before the membership test and the listed names have lower-case
    letters. No request at all is accepted under that list. *)
Theorem subscribe_src_turns_down_listed_pair :
  "frxEURUSD" ∈ SUPPORTED_PAIRS_src
  /\ (forall st chat_id,
         subscribe_command SUPPORTED_PAIRS_src st chat_id ["frxEURUSD"; "5"]
         = Ok (st, [], UnsupportedPair SUPPORTED_PAIRS_src))
  /\ (forall st chat_id args,
         turned_down st (subscribe_command SUPPORTED_PAIRS_src st chat_id args)).
Proof.
  split; [| split].
  - unfold SUPPORTED_PAIRS_src. apply elem_of_cons. left. reflexivity.
  - intros st chat_id. reflexivity.
  - intros st chat_id args. apply subscribe_refuses. apply upper_not_in_src.
Qed.




(** ** The unsubscribe and list commands *)

(** After an unsubscribe that found the pair, [list_command] still
    lists the pair, with interval 0. *)
Lemma list_after_unsubscribe (st : state) (chat_id : Z) (arg0 : string)
    (rest : list string) :
  snd (unsubscribe_command st chat_id (arg0 :: rest))
  = Unsubscribed (upper arg0) ->
  exists lines,
    list_command (fst (unsubscribe_command st chat_id (arg0 :: rest))) chat_id
    = ActiveSubscriptions lines
    /\ (upper arg0, 0) ∈ lines.
Proof.
  unfold unsubscribe_command, list_command.
  destruct (subscriptions st !! chat_id) as [subs |] eqn:Hs; simpl;
    [| discriminate].
  destruct (PyDict.mem subs (upper arg0)) eqn:Hm; simpl; [| discriminate].
  intros _. rewrite lookup_insert_eq.
  pose proof (PyDict_set_elem subs (upper arg0) 0) as Hin.
  destruct (PyDict.set subs (upper arg0) 0) as [| x r] eqn:E.
  - apply not_elem_of_nil in Hin. contradiction.
  - eexists. split; [reflexivity | exact Hin].
Qed.


(** ** Indicators *)

Lemma np_linspace_length (start stop : Q) (num : nat) :
  length (np_linspace start stop num) = num.
Proof.
  unfold np_linspace. destruct (1 <? num)%nat.
  - rewrite length_insert, length_map, length_seq. reflexivity.
  - rewrite length_map, length_seq. reflexivity.
Qed.

Lemma ema_weights_length (np_exp : Q -> Q) (period : nat) :
  length (ema_weights np_exp period) = period.
Proof.
  unfold ema_weights. rewrite !length_map. apply np_linspace_length.
Qed.

Lemma np_sum_from (l : list Q) (a : Q) :
  (fold_left Qplus l a == a + np_sum l)%Q.
Proof.
  unfold np_sum. revert a. induction l as [| x l IH]; intros a; simpl.
  - ring.
  - rewrite IH. rewrite (IH (0 + x)%Q). ring.
Qed.

Lemma np_sum_cons (x : Q) (l : list Q) : (np_sum (x :: l) == x + np_sum l)%Q.
Proof. unfold np_sum at 1. simpl. rewrite np_sum_from. ring. Qed.

Lemma np_sum_nil : np_sum [] = 0%Q.
Proof. reflexivity. Qed.


Lemma calculate_rsi_present (l : list Q) (period : nat) :
  (period <= length l)%nat -> is_Some (calculate_rsi l period).
Proof.
  intros H. apply Nat.ltb_ge in H. unfold calculate_rsi. rewrite H.
  destruct (Qeq_bool _ 0); eexists; reflexivity.
Qed.

(** On a list of exactly [period] samples the code computes the RSI of
    the specification. *)
Lemma calculate_rsi_window (l : list Q) (period : nat) :
  length l = period -> calculate_rsi l period = spec_rsi l period.
Proof.
  intros H. unfold calculate_rsi, spec_rsi.
  rewrite lastn_all by lia. reflexivity.
Qed.

(** The convolution of two lists of one length is the dot product of the
    first with the second reversed. *)
Lemma np_convolve_valid_same_length (a v : list Q) :
  length a = length v -> a <> [] ->
  np_convolve_valid a v = Ok [dot a (rev v)].
Proof.
  intros Hlen Hne. unfold np_convolve_valid.
  rewrite (proj2 (Nat.ltb_ge _ _)) by lia.
  destruct a as [| x a]; [contradiction |].
  destruct v as [| y v]; [discriminate |].
  cbn [length Nat.eqb]. unfold np_correlate_valid.
  rewrite length_rev, <- Hlen, Nat.sub_diag. cbn [Nat.add seq map drop].
  rewrite firstn_all. reflexivity.
Qed.

(** The EMA of the code: the last [period] prices against the weights in
    reverse order, so the oldest price meets the last weight. *)
Lemma calculate_ema_flipped (np_exp : Q -> Q) (l : list Q) (period : nat) :
  (0 < period <= length l)%nat ->
  calculate_ema np_exp l period
  = Ok (Some (dot (lastn period l) (rev (ema_weights np_exp period)))).
Proof.
  intros [Hpos Hlen]. unfold calculate_ema.
  rewrite (proj2 (Nat.ltb_ge _ _)) by lia.
  unfold slice_last. rewrite (proj2 (Nat.eqb_neq _ _)) by lia.
  rewrite np_convolve_valid_same_length.
  - reflexivity.
  - rewrite lastn_length, ema_weights_length. lia.
  - intros E. apply (f_equal length) in E. rewrite lastn_length in E.
    simpl in E. lia.
Qed.



(** C4. On fifteen prices whose only fall lies before the last fourteen
    samples, the window of the specification has no loss and gives 100;
    the code takes the differences of the whole list, sees the fall and
    returns 50. *)
Theorem rsi_reads_whole_history :
  length rsi_example = 15%nat
  /\ (exists r, calculate_rsi rsi_example 14 = Some r /\ (r == 50)%Q)
  /\ spec_rsi rsi_example 14 = Some 100%Q.
Proof.
  split; [reflexivity |]. split.
  - eexists. split; [vm_compute; reflexivity | reflexivity].
  - reflexivity.
Qed.

Lemma linspace_14 :
  np_linspace (-1) 0 14
  = [-1; -12 # 13; -11 # 13; -10 # 13; -9 # 13; -8 # 13; -7 # 13;
     -6 # 13; -5 # 13; -4 # 13; -3 # 13; -2 # 13; -1 # 13; 0]%Q.
Proof. reflexivity. Qed.

(** C5. On fourteen prices of which only the oldest is 1, the code
    returns the last weight, exp(0)/S, the largest one: the convolution
    reverses the weights. The specification pairs the oldest price with
    the first weight, exp(-1)/S. *)
Theorem ema_pairs_oldest_with_last_weight (np_exp : Q -> Q) :
  let total := np_sum (map np_exp (np_linspace (-1) 0 14)) in
  (exists x, calculate_ema np_exp ema_example 14 = Ok (Some x)
             /\ (x == np_exp 0 / total)%Q)
  /\ (exists y, spec_ema np_exp ema_example 14 = Some y
                /\ (y == np_exp (-1) / total)%Q).
Proof.
  cbv zeta. split.
  - eexists. split.
    + apply calculate_ema_flipped. simpl. lia.
    + unfold ema_weights. cbv zeta. rewrite linspace_14.
      set (total := np_sum _). unfold dot, ema_example.
      cbn [lastn length Nat.sub drop repeat map rev app zip_with].
      rewrite !np_sum_cons, np_sum_nil. ring.
  - eexists. split.
    + reflexivity.
    + unfold ema_weights. cbv zeta. rewrite linspace_14.
      set (total := np_sum _). unfold dot, ema_example.
      cbn [lastn length Nat.sub drop repeat map rev app zip_with].
      rewrite !np_sum_cons, np_sum_nil. ring.
Qed.

(** ** Fixed-point formatting *)










(** ** Signal classification *)

Lemma Qltb_lt (a b : Q) : Qltb a b = true <-> (a < b)%Q.
Proof.
  unfold Qltb. rewrite negb_true_iff, <- not_true_iff_false, Qle_bool_iff.
  split; [apply Qnot_le_lt | apply Qlt_not_le].
Qed.



#[global] Instance Qltb_proper : Proper (Qeq ==> Qeq ==> eq) Qltb.
Proof. intros a a' Ha b b' Hb. unfold Qltb. rewrite Ha, Hb. reflexivity. Qed.

Lemma get_signal_short (np_exp : Q -> Q) (prices : gmap string (list Q))
    (symbol : string) :
  (length (default [] (prices !! symbol)) < 14)%nat ->
  get_signal np_exp prices symbol = Ok no_signal.
Proof.
  intros H. apply Nat.ltb_lt in H. unfold get_signal. rewrite H. reflexivity.
Qed.

Lemma get_signal_long (np_exp : Q -> Q) (prices : gmap string (list Q))
    (symbol : string) :
  let l := default [] (prices !! symbol) in
  (14 <= length l)%nat ->
  exists rsi ema price,
    calculate_rsi l 14 = Some rsi
    /\ calculate_ema np_exp l 14 = Ok (Some ema)
    /\ last l = Some price
    /\ get_signal np_exp prices symbol
       = Ok (classify symbol rsi ema price).
Proof.
  intros l Hlen.
  destruct (calculate_rsi_present l 14 Hlen) as [rsi Hrsi].
  assert (is_Some (last l)) as [price Hlast].
  { apply last_is_Some. intros E. rewrite E in Hlen. simpl in Hlen. lia. }
  exists rsi, (dot (lastn 14 l) (rev (ema_weights np_exp 14))), price.
  split; [exact Hrsi |].
  split; [apply calculate_ema_flipped; lia |]. split; [exact Hlast |].
  unfold get_signal. fold l. rewrite (proj2 (Nat.ltb_ge _ _) Hlen).
  rewrite calculate_ema_flipped by lia. simpl.
  unfold index_last. rewrite Hlast, Hrsi. reflexivity.
Qed.

(** A classification always carries a signal, a text, an image name
    that is not empty, and the price. *)
Lemma classify_shape (symbol : string) (rsi ema price : Q) :
  exists sg desc c img,
    classify symbol rsi ema price
    = (Some sg, Some desc, Some (String c img), Some price).
Proof.
  unfold classify.
  destruct (Qltb rsi 30 && Qltb ema price);
    [| destruct (Qltb 70 rsi && Qltb price ema); [| destruct (Qltb rsi 50)]];
    repeat eexists.
Qed.

(** The signal and the image name depend on the values of the three
    numbers only, not on how the rationals are written. *)
Lemma classify_values (symbol : string) (rsi ema price rsi' ema' price' : Q) :
  (rsi == rsi')%Q -> (ema == ema')%Q -> (price == price')%Q ->
  let r := classify symbol rsi ema price in
  let r' := classify symbol rsi' ema' price' in
  fst (fst (fst r)) = fst (fst (fst r')) /\ snd (fst r) = snd (fst r').
Proof.
  intros Hr He Hp. cbv zeta. unfold classify.
  assert (Qltb rsi 30 = Qltb rsi' 30) as -> by (rewrite Hr; reflexivity).
  assert (Qltb ema price = Qltb ema' price') as ->
    by (rewrite He, Hp; reflexivity).
  assert (Qltb 70 rsi = Qltb 70 rsi') as -> by (rewrite Hr; reflexivity).
  assert (Qltb price ema = Qltb price' ema') as ->
    by (rewrite He, Hp; reflexivity).
  assert (Qltb rsi 50 = Qltb rsi' 50) as -> by (rewrite Hr; reflexivity).
  destruct (Qltb rsi' 30 && Qltb ema' price');
    [| destruct (Qltb 70 rsi' && Qltb price' ema'); [| destruct (Qltb rsi' 50)]];
    split; reflexivity.
Qed.


(** ** The alert worker *)

Lemma send_of_is_send (chat_id : Z) (desc img : option string) :
  is_send (send_of chat_id desc img) = true.
Proof. destruct img as [[| c r] |]; reflexivity. Qed.

(** The three ways an iteration can go once both dictionaries of the
    chat exist: it only sleeps, it raises before any effect, or it stores
    the signal and the price, sends, and sleeps. *)
Lemma alert_iteration_cases (np_exp : Q -> Q) (st : state) (chat_id : Z)
    (key : string) (interval : Z) :
  entered st chat_id ->
  exists signal desc img price,
    (get_signal np_exp (prices st) key = Ok (signal, desc, img, price)
     \/ (exists e, get_signal np_exp (prices st) key = Raise e))
    /\ ((send_alert_of st chat_id key signal price = Ok false
         /\ alert_iteration np_exp st chat_id key interval
            = ([Sleep interval], None))
        \/ (exists e, alert_iteration np_exp st chat_id key interval
                      = ([], Some e))
        \/ (get_signal np_exp (prices st) key = Ok (signal, desc, img, price)
            /\ send_alert_of st chat_id key signal price = Ok true
            /\ alert_iteration np_exp st chat_id key interval
               = ([SetLastSent chat_id key signal;
                   SetLastPrice chat_id key price;
                   send_of chat_id desc img;
                   Sleep interval], None))).
Proof.
  intros [[ds Hds] [dp Hdp]]. unfold alert_iteration.
  destruct (get_signal np_exp (prices st) key)
    as [[[[signal desc] img] price] | e] eqn:Hg.
  - exists signal, desc, img, price. split; [left; reflexivity |].
    destruct (send_alert_of st chat_id key signal price) as [[|] | e] eqn:Hs.
    + right. right. rewrite Hds, Hdp. repeat split.
    + left. split; reflexivity.
    + right. left. eexists. reflexivity.
  - exists None, None, None, None. split; [right; eexists; reflexivity |].
    right. left. eexists. reflexivity.
Qed.

Lemma run_effects_store (st : state) (chat_id : Z) (key : string)
    (signal : option Signal) (price : option Q) (send : effect) (interval : Z) :
  is_send send = true ->
  run_effects st [SetLastSent chat_id key signal;
                  SetLastPrice chat_id key price; send; Sleep interval]
  = {| prices := prices st;
       subscriptions := subscriptions st;
       last_sent := alter (fun d => <[key := signal]> d) chat_id (last_sent st);
       last_price := alter (fun d => <[key := price]> d) chat_id (last_price st) |}.
Proof. intros Hs. destruct send; try discriminate; reflexivity. Qed.

Section AlterFacts.
Context {V : Type}.
Implicit Types (m : gmap Z (gmap string (option V))).

Lemma read_alter_eq m chat_id key (v : option V) :
  is_Some (m !! chat_id) ->
  read (alter (fun d => <[key := v]> d) chat_id m) chat_id key = v.
Proof.
  intros [d Hd]. unfold read. rewrite lookup_alter_eq, Hd. simpl.
  rewrite lookup_insert_eq. reflexivity.
Qed.

Lemma read_alter_ne m chat_id key (v : option V) chat_id' key' :
  (chat_id', key') <> (chat_id, key) ->
  read (alter (fun d => <[key := v]> d) chat_id m) chat_id' key'
  = read m chat_id' key'.
Proof.
  intros Hne. unfold read.
  destruct (decide (chat_id = chat_id')) as [<- | Hc].
  - rewrite lookup_alter_eq. destruct (m !! chat_id) as [d |]; simpl;
      [| reflexivity].
    rewrite lookup_insert_ne; [reflexivity |]. congruence.
  - rewrite lookup_alter_ne by exact Hc. reflexivity.
Qed.
End AlterFacts.

(** C10. In an iteration of a worker that has entered [alert_pair], no
    send means no assignment and the same [last_sent] and [last_price]; an
    assignment happens only as the pair of assignments, signal then price,
    followed by the send, after which the stored values are the ones just
    sent. The alert state of every other (chat, pair) is left as it was. *)
Theorem alert_state_changes_only_with_send (np_exp : Q -> Q) (st : state)
    (chat_id : Z) (key : string) (interval : Z) :
  entered st chat_id ->
  let r := alert_iteration np_exp st chat_id key interval in
  let st' := run_effects st (fst r) in
  (dispatched r = false ->
   stored r = false
   /\ last_sent st' = last_sent st /\ last_price st' = last_price st)
  /\ (stored r = true ->
      exists signal price send,
        is_send send = true
        /\ fst r = [SetLastSent chat_id key signal;
                    SetLastPrice chat_id key price; send; Sleep interval]
        /\ snd r = None
        /\ last_signal_of st' chat_id key = signal
        /\ last_price_of st' chat_id key = price)
  /\ (forall chat_id' key',
         (chat_id', key') <> (chat_id, key) ->
         last_signal_of st' chat_id' key' = last_signal_of st chat_id' key'
         /\ last_price_of st' chat_id' key' = last_price_of st chat_id' key').
Proof.
  intros Hent. cbv zeta.
  destruct (alert_iteration_cases np_exp st chat_id key interval Hent)
    as (signal & desc & img & price & _ & [[_ ->] | [[e ->] | (_ & _ & ->)]]).
  - split; [intros _; repeat split |]. split; [discriminate |].
    intros; split; reflexivity.
  - split; [intros _; repeat split |]. split; [discriminate |].
    intros; split; reflexivity.
  - pose proof (send_of_is_send chat_id desc img) as Hsend.
    cbn [fst snd]. rewrite run_effects_store by exact Hsend.
    unfold dispatched, stored, last_signal_of, last_price_of. cbn [fst snd].
    destruct Hent as [Hs Hp].
    split.
    { cbn [existsb is_send]. rewrite Hsend. rewrite orb_true_r.
      discriminate. }
    split.
    { intros _. exists signal, price, (send_of chat_id desc img).
      split; [exact Hsend |]. split; [reflexivity |].
      split; [reflexivity |]. cbn [last_sent last_price].
      split; apply read_alter_eq; assumption. }
    intros chat_id' key' Hne. cbn [last_sent last_price].
    split; apply read_alter_ne; exact Hne.
Qed.

Lemma alert_state_changes_only_with_send_witness :
  let st := alert_pair_enter
              (with_prices (initial_state ["FRXEURUSD"])
                 (feed (map (Tick "FRXEURUSD")
                          [1; 2; 3; 4; 5; 6; 7; 8; 9; 10; 11; 12; 13; 14]%Q)
                    (initial_prices ["FRXEURUSD"]))) 1 in
  let r := alert_iteration exp_taylor st 1 "FRXEURUSD" 5 in
  let st' := run_effects st (fst r) in
  (dispatched r = false ->
   stored r = false
   /\ last_sent st' = last_sent st /\ last_price st' = last_price st)
  /\ (stored r = true ->
      exists signal price send,
        is_send send = true
        /\ fst r = [SetLastSent 1 "FRXEURUSD" signal;
                    SetLastPrice 1 "FRXEURUSD" price; send; Sleep 5]
        /\ snd r = None
        /\ last_signal_of st' 1 "FRXEURUSD" = signal
        /\ last_price_of st' 1 "FRXEURUSD" = price)
  /\ (forall chat_id' key',
         (chat_id', key') <> (1, "FRXEURUSD") ->
         last_signal_of st' chat_id' key' = last_signal_of st chat_id' key'
         /\ last_price_of st' chat_id' key' = last_price_of st chat_id' key').
Proof.
  apply (alert_state_changes_only_with_send exp_taylor _ 1 "FRXEURUSD" 5).
  split; eexists; reflexivity.
Defined.

(** The example of the witness does store and send. *)
Example alert_first_poll_sends :
  let st := alert_pair_enter
              (with_prices (initial_state ["FRXEURUSD"])
                 (feed (map (Tick "FRXEURUSD")
                          [1; 2; 3; 4; 5; 6; 7; 8; 9; 10; 11; 12; 13; 14]%Q)
                    (initial_prices ["FRXEURUSD"]))) 1 in
  let r := alert_iteration exp_taylor st 1 "FRXEURUSD" 5 in
  dispatched r = true /\ stored r = true
  /\ last_signal_of (run_effects st (fst r)) 1 "FRXEURUSD" = Some LOWER_RISK
  /\ last_price_of (run_effects st (fst r)) 1 "FRXEURUSD" = Some 14%Q.
Proof. cbv zeta. repeat split; vm_compute; reflexivity. Qed.

(** ** What the running program keeps true *)

(** A history that has reached 14 samples keeps at least 14. *)
Lemma feed_step_history (p : gmap string (list Q)) (m : message)
    (key : string) :
  (14 <= length (default [] (p !! key)))%nat ->
  (14 <= length (default [] (feed_step p m !! key)))%nat.
Proof.
  intros H. unfold feed_step, on_message.
  destruct m as [s q |]; [| exact H].
  destruct (p !! s) as [l |] eqn:Hs; [| exact H].
  destruct (decide (s = key)) as [-> | Hne].
  - rewrite lookup_insert_eq. rewrite Hs in H. simpl in *.
    unfold PRICE_HISTORY_LENGTH, pop0.
    destruct (Nat.ltb_spec 50 (length (l ++ [q]))) as [Hlt | Hge].
    + destruct l as [| x l]; simpl in *; [lia |].
      rewrite length_app in *. simpl in *. lia.
    + rewrite length_app. simpl. lia.
  - rewrite lookup_insert_ne by exact Hne. exact H.
Qed.

(** What [get_signal] can return: the four [None], or a classification
    of a history of at least 14 samples. *)
Lemma get_signal_result (np_exp : Q -> Q) (prices : gmap string (list Q))
    (key : string) :
  (get_signal np_exp prices key = Ok no_signal
   /\ (length (default [] (prices !! key)) < 14)%nat)
  \/ ((14 <= length (default [] (prices !! key)))%nat
      /\ exists sg desc c img price,
           get_signal np_exp prices key
           = Ok (Some sg, Some desc, Some (String c img), Some price)).
Proof.
  destruct (Nat.lt_ge_cases (length (default [] (prices !! key))) 14)
    as [Hshort | Hlong].
  - left. split; [apply get_signal_short; exact Hshort | exact Hshort].
  - right. split; [exact Hlong |].
    destruct (get_signal_long np_exp prices key Hlong)
      as (rsi & ema & price & _ & _ & _ & ->).
    destruct (classify_shape key rsi ema price) as (sg & desc & c & img & ->).
    exists sg, desc, c, img, price. reflexivity.
Qed.

(** An iteration decides to send only on a classification. *)
Lemma send_alert_needs_signal (st : state) (chat_id : Z) (key : string)
    (price : option Q) :
  send_alert_of st chat_id key None price = Ok true -> is_Some price.
Proof.
  unfold send_alert_of.
  destruct (last_price st !! chat_id) as [d |]; [| discriminate].
  destruct (d !! key) as [[lp |] |]; try discriminate.
  destruct price; [eexists; reflexivity | discriminate].
Qed.

(** The effects of an iteration in any state, with what is known when
    something is stored. *)
Lemma alert_iteration_effects (np_exp : Q -> Q) (st : state) (chat_id : Z)
    (key : string) (interval : Z) :
  let effects := fst (alert_iteration np_exp st chat_id key interval) in
  effects = [] \/ effects = [Sleep interval]
  \/ ((14 <= length (history st key))%nat
      /\ exists sg desc img price,
           (effects = [SetLastSent chat_id key (Some sg)]
            \/ effects = [SetLastSent chat_id key (Some sg);
                          SetLastPrice chat_id key (Some price);
                          send_of chat_id desc img; Sleep interval])).
Proof.
  cbv zeta. unfold alert_iteration, history.
  destruct (get_signal_result np_exp (prices st) key)
    as [[-> Hshort] | [Hlong (sg & desc & c & img & price & ->)]].
  - unfold no_signal.
    destruct (send_alert_of st chat_id key None None) as [[|] | e] eqn:Hs.
    + apply send_alert_needs_signal in Hs as [? ?]. discriminate.
    + right. left. reflexivity.
    + left. reflexivity.
  - destruct (send_alert_of st chat_id key (Some sg) (Some price))
      as [[|] | e].
    + destruct (last_sent st !! chat_id); [| left; reflexivity].
      right. right. split; [exact Hlong |].
      exists sg, (Some desc), (Some (String c img)), price.
      destruct (last_price st !! chat_id); [right | left]; reflexivity.
    + right. left. reflexivity.
    + left. reflexivity.
Qed.

Lemma alert_state_inv_store_signal (st : state) (chat_id : Z) (key : string)
    (signal : option Signal) :
  (14 <= length (history st key))%nat ->
  alert_state_inv st ->
  alert_state_inv (apply_effect st (SetLastSent chat_id key signal)).
Proof.
  intros Hlen [Hs Hp]. split; [| exact Hp].
  intros chat_id' d key' v. simpl. unfold history. simpl.
  destruct (decide (chat_id = chat_id')) as [<- | Hc].
  - rewrite lookup_alter_eq.
    destruct (last_sent st !! chat_id) as [d0 |] eqn:Hd; simpl;
      [| discriminate].
    intros [= <-]. destruct (decide (key = key')) as [<- | Hk].
    + intros _. exact Hlen.
    + rewrite lookup_insert_ne by exact Hk. apply (Hs chat_id d0). exact Hd.
  - rewrite lookup_alter_ne by exact Hc. apply Hs.
Qed.

Lemma alert_state_inv_store_price (st : state) (chat_id : Z) (key : string)
    (price : Q) :
  (14 <= length (history st key))%nat ->
  alert_state_inv st ->
  alert_state_inv (apply_effect st (SetLastPrice chat_id key (Some price))).
Proof.
  intros Hlen [Hs Hp]. split; [exact Hs |].
  intros chat_id' d key' v. simpl. unfold history. simpl.
  destruct (decide (chat_id = chat_id')) as [<- | Hc].
  - rewrite lookup_alter_eq.
    destruct (last_price st !! chat_id) as [d0 |] eqn:Hd; simpl;
      [| discriminate].
    intros [= <-]. destruct (decide (key = key')) as [<- | Hk].
    + rewrite lookup_insert_eq. intros [= <-].
      split; [exact Hlen | eexists; reflexivity].
    + rewrite lookup_insert_ne by exact Hk. apply (Hp chat_id d0). exact Hd.
  - rewrite lookup_alter_ne by exact Hc. apply Hp.
Qed.

Lemma alert_state_inv_iteration (np_exp : Q -> Q) (st : state) (chat_id : Z)
    (key : string) (interval : Z) :
  alert_state_inv st ->
  alert_state_inv
    (run_effects st (fst (alert_iteration np_exp st chat_id key interval))).
Proof.
  intros Hinv.
  destruct (alert_iteration_effects np_exp st chat_id key interval)
    as [-> | [-> | [Hlen (sg & desc & img & price & [-> | ->])]]];
    try exact Hinv.
  - apply alert_state_inv_store_signal; assumption.
  - rewrite run_effects_store by apply send_of_is_send.
    change (alert_state_inv
              (apply_effect
                 (apply_effect st (SetLastSent chat_id key (Some sg)))
                 (SetLastPrice chat_id key (Some price)))).
    apply alert_state_inv_store_price; [exact Hlen |].
    apply alert_state_inv_store_signal; assumption.
Qed.

Lemma alert_state_inv_enter (st : state) (chat_id : Z) :
  alert_state_inv st -> alert_state_inv (alert_pair_enter st chat_id).
Proof.
  intros [Hs Hp]. unfold alert_pair_enter. split; simpl; unfold history; simpl.
  - intros c d key v.
    destruct (last_sent st !! chat_id) eqn:E; [apply Hs |].
    destruct (decide (chat_id = c)) as [<- | Hc].
    + rewrite lookup_insert_eq. intros [= <-]. rewrite lookup_empty.
      discriminate.
    + rewrite lookup_insert_ne by exact Hc. apply Hs.
  - intros c d key v.
    destruct (last_price st !! chat_id) eqn:E; [apply Hp |].
    destruct (decide (chat_id = c)) as [<- | Hc].
    + rewrite lookup_insert_eq. intros [= <-]. rewrite lookup_empty.
      discriminate.
    + rewrite lookup_insert_ne by exact Hc. apply Hp.
Qed.

Lemma alert_state_inv_feed (st : state) (m : message) :
  alert_state_inv st ->
  alert_state_inv (with_prices st (feed_step (prices st) m)).
Proof.
  intros [Hs Hp]. split; simpl; unfold history; simpl.
  - intros c d key v Hd Hv. apply feed_step_history. apply (Hs c d key v Hd Hv).
  - intros c d key v Hd Hv. destruct (Hp c d key v Hd Hv) as [Hlen Hv'].
    split; [apply feed_step_history; exact Hlen | exact Hv'].
Qed.

(** The dictionaries of a chat, once created, stay. *)
Lemma entered_apply_effect (st : state) (e : effect) (chat_id : Z) :
  entered st chat_id -> entered (apply_effect st e) chat_id.
Proof.
  intros [Hs Hp]. destruct e as [c k v | c k v | | |]; simpl;
    try (split; assumption); split; simpl; try assumption.
  - destruct (decide (c = chat_id)) as [-> | Hc].
    + rewrite lookup_alter_eq. destruct Hs as [d ->]. eexists. reflexivity.
    + rewrite lookup_alter_ne by exact Hc. exact Hs.
  - destruct (decide (c = chat_id)) as [-> | Hc].
    + rewrite lookup_alter_eq. destruct Hp as [d ->]. eexists. reflexivity.
    + rewrite lookup_alter_ne by exact Hc. exact Hp.
Qed.

Lemma entered_run_effects (st : state) (es : list effect) (chat_id : Z) :
  entered st chat_id -> entered (run_effects st es) chat_id.
Proof.
  unfold run_effects. revert st. induction es as [| e es IH]; intros st H.
  - exact H.
  - simpl. apply IH. apply entered_apply_effect. exact H.
Qed.

Lemma entered_enter (st : state) (chat_id c : Z) :
  entered st c -> entered (alert_pair_enter st chat_id) c.
Proof.
  intros [Hs Hp]. unfold alert_pair_enter. split; simpl.
  - destruct (last_sent st !! chat_id) eqn:E; [exact Hs |].
    destruct (decide (chat_id = c)) as [<- | Hc].
    + rewrite lookup_insert_eq. eexists. reflexivity.
    + rewrite lookup_insert_ne by exact Hc. exact Hs.
  - destruct (last_price st !! chat_id) eqn:E; [exact Hp |].
    destruct (decide (chat_id = c)) as [<- | Hc].
    + rewrite lookup_insert_eq. eexists. reflexivity.
    + rewrite lookup_insert_ne by exact Hc. exact Hp.
Qed.

Lemma entered_enter_self (st : state) (chat_id : Z) :
  entered (alert_pair_enter st chat_id) chat_id.
Proof.
  unfold alert_pair_enter. split; simpl.
  - destruct (last_sent st !! chat_id) eqn:E.
    + rewrite E. eexists. reflexivity.
    + rewrite lookup_insert_eq. eexists. reflexivity.
  - destruct (last_price st !! chat_id) eqn:E.
    + rewrite E. eexists. reflexivity.
    + rewrite lookup_insert_eq. eexists. reflexivity.
Qed.

(** Effects never touch the prices or the subscriptions. *)
Lemma run_effects_frame (st : state) (es : list effect) :
  subscriptions (run_effects st es) = subscriptions st
  /\ prices (run_effects st es) = prices st.
Proof.
  unfold run_effects. revert st.
  induction es as [| e es IH]; intros st; [split; reflexivity |].
  simpl. destruct (IH (apply_effect st e)) as [-> ->].
  destruct e; split; reflexivity.
Qed.

(** A worker step keeps the invariant of the alert state and the
    dictionaries of every chat, and leaves the subscriptions alone. *)
Lemma worker_step_keeps (np_exp : Q -> Q) (st : state) (w : worker) :
  let st' := fst (worker_step np_exp st w) in
  let w' := snd (worker_step np_exp st w) in
  (alert_state_inv st -> alert_state_inv st')
  /\ (forall c, entered st c -> entered st' c)
  /\ subscriptions st' = subscriptions st
  /\ prices st' = prices st
  /\ w_thread w' = w_thread w
  /\ (w_phase w' = Looping ->
      (w_phase w = Looping -> entered st (th_chat (w_thread w))) ->
      entered st' (th_chat (w_thread w'))).
Proof.
  cbv zeta. unfold worker_step.
  destruct (w_phase w) eqn:Hph.
  - cbn [fst snd w_thread w_phase].
    split; [apply alert_state_inv_enter |].
    split; [intros c; apply entered_enter |].
    split; [reflexivity |]. split; [reflexivity |]. split; [reflexivity |].
    intros _ _. apply entered_enter_self.
  - destruct (alert_running st _ _).
    + pose proof (alert_state_inv_iteration np_exp st (th_chat (w_thread w))
                    (th_pair (w_thread w)) (th_interval (w_thread w))) as Hinv.
      destruct (alert_iteration np_exp st (th_chat (w_thread w))
                  (th_pair (w_thread w)) (th_interval (w_thread w)))
        as [effects raised].
      cbn [fst snd w_thread w_phase] in *.
      split; [exact Hinv |].
      split; [intros c; apply entered_run_effects |].
      split; [apply run_effects_frame |].
      split; [apply run_effects_frame |].
      split; [reflexivity |].
      intros _ H. apply entered_run_effects. apply H. reflexivity.
    + cbn [fst snd w_thread w_phase].
      split; [tauto |]. split; [tauto |].
      split; [reflexivity |]. split; [reflexivity |]. split; [reflexivity |].
      intros H. discriminate H.
  - cbn [fst snd].
    split; [tauto |]. split; [tauto |].
    split; [reflexivity |]. split; [reflexivity |]. split; [reflexivity |].
    rewrite Hph. intros H. discriminate H.
  - cbn [fst snd].
    split; [tauto |]. split; [tauto |].
    split; [reflexivity |]. split; [reflexivity |]. split; [reflexivity |].
    rewrite Hph. intros H. discriminate H.
Qed.

Lemma alert_state_inv_frame (st st' : state) :
  prices st' = prices st -> last_sent st' = last_sent st ->
  last_price st' = last_price st ->
  alert_state_inv st -> alert_state_inv st'.
Proof.
  unfold alert_state_inv, history. intros -> -> ->. tauto.
Qed.

Lemma entered_frame (st st' : state) (c : Z) :
  last_sent st' = last_sent st -> last_price st' = last_price st ->
  entered st c -> entered st' c.
Proof. unfold entered. intros -> ->. tauto. Qed.

(** The outcomes of the subscribe command. *)
Lemma subscribe_command_cases (supported : list string) (st : state)
    (chat_id : Z) (args : list string) :
  (exists e, subscribe_command supported st chat_id args = Raise e)
  \/ (exists answer, subscribe_command supported st chat_id args
                     = Ok (st, [], answer))
  \/ (exists key interval,
         subscribe_command supported st chat_id args
         = Ok (with_subscriptions st
                 (<[chat_id := PyDict.set
                                 (default [] (subscriptions st !! chat_id))
                                 key interval]> (subscriptions st)),
               [mkThread chat_id key interval], Subscribed key interval)).
Proof.
  unfold subscribe_command.
  destruct args as [| arg0 [| arg1 rest]].
  - right. left. eexists. reflexivity.
  - right. left. eexists. reflexivity.
  - destruct (py_int arg1) as [interval | e]; simpl.
    + destruct (py_in (upper arg0) supported); simpl.
      * right. right. eexists _, _. reflexivity.
      * right. left. eexists. reflexivity.
    + left. eexists. reflexivity.
Qed.

Lemma subscriptions_NoDup_set (subs : gmap Z (list (string * Z)))
    (chat_id : Z) (d : list (string * Z)) (key : string) (interval : Z) :
  (forall c d', subs !! c = Some d' -> NoDup (PyDict.keys d')) ->
  d = default [] (subs !! chat_id) ->
  forall c d', <[chat_id := PyDict.set d key interval]> subs !! c = Some d' ->
               NoDup (PyDict.keys d').
Proof.
  intros Hall -> c d'. destruct (decide (chat_id = c)) as [<- | Hc].
  - rewrite lookup_insert_eq. intros [= <-]. apply PyDict_keys_set_NoDup.
    destruct (subs !! chat_id) as [d0 |] eqn:E; simpl.
    + apply (Hall chat_id). exact E.
    + apply NoDup_nil_2.
  - rewrite lookup_insert_ne by exact Hc. apply Hall.
Qed.

Lemma step_keeps_inv (supported : list string) (np_exp : Q -> Q)
    (sys : system) (ev : event) :
  system_inv sys -> system_inv (step supported np_exp sys ev).
Proof.
  intros (Hinv & Hw & Hnd). unfold step.
  destruct ev as [m | chat_id args | chat_id args | chat_id | i].
  - split; [apply alert_state_inv_feed; exact Hinv |]. split.
    + intros i w Hi Hph. simpl in *. apply (Hw i w Hi Hph).
    + exact Hnd.
  - destruct (subscribe_command_cases supported (sys_state sys) chat_id args)
      as [[e ->] | [[answer ->] | (key & interval & ->)]].
    + split; [exact Hinv |]. split; assumption.
    + simpl. rewrite app_nil_r. split; [exact Hinv |]. split; assumption.
    + split; [exact Hinv |]. split.
      * intros i w Hi Hph. simpl in Hi.
        apply lookup_app_Some in Hi as [Hi | [_ Hi]].
        -- apply (Hw i w Hi Hph).
        -- apply list_lookup_singleton_Some in Hi as [_ <-].
           discriminate Hph.
      * simpl. apply subscriptions_NoDup_set; [exact Hnd | reflexivity].
  - split; [| split].
    + eapply alert_state_inv_frame; [| | | exact Hinv];
        unfold unsubscribe_command;
        destruct args as [| arg0 rest]; try reflexivity;
        destruct (subscriptions (sys_state sys) !! chat_id) as [subs |];
        try reflexivity; destruct (PyDict.mem subs (upper arg0)); reflexivity.
    + intros i w Hi Hph. simpl in Hi.
      eapply entered_frame; [| | apply (Hw i w Hi Hph)];
        unfold unsubscribe_command;
        destruct args as [| arg0 rest]; try reflexivity;
        destruct (subscriptions (sys_state sys) !! chat_id) as [subs |];
        try reflexivity; destruct (PyDict.mem subs (upper arg0)); reflexivity.
    + simpl. unfold unsubscribe_command.
      destruct args as [| arg0 rest]; [exact Hnd |].
      destruct (subscriptions (sys_state sys) !! chat_id) as [subs |] eqn:E;
        [| exact Hnd].
      destruct (PyDict.mem subs (upper arg0)); [| exact Hnd].
      simpl. apply subscriptions_NoDup_set; [exact Hnd |].
      rewrite E. reflexivity.
  - split; [exact Hinv |]. split; assumption.
  - destruct (sys_workers sys !! i) as [w |] eqn:Hi;
      [| split; [exact Hinv |]; split; assumption].
    pose proof (worker_step_keeps np_exp (sys_state sys) w) as Hk.
    cbv zeta in Hk.
    destruct (worker_step np_exp (sys_state sys) w) as [st' w'].
    cbn [fst snd] in Hk.
    destruct Hk as (Hk1 & Hk2 & Hk3 & _ & Hk5 & Hk6).
    split; [apply Hk1; exact Hinv |]. split.
    + intros j wj Hj Hph. simpl in *.
      destruct (decide (i = j)) as [<- | Hij].
      * rewrite list_lookup_insert_eq in Hj
          by (apply lookup_lt_Some in Hi; exact Hi).
        injection Hj as <-. apply Hk6; [exact Hph |].
        intros Hl. apply (Hw i w Hi Hl).
      * rewrite list_lookup_insert_ne in Hj by exact Hij.
        apply Hk2. apply (Hw j wj Hj Hph).
    + simpl. rewrite Hk3. exact Hnd.
Qed.

Lemma initial_system_inv (supported : list string) :
  system_inv (initial_system supported).
Proof.
  split; [| split].
  - split; intros c d key v H; simpl in H; rewrite lookup_empty in H;
      discriminate H.
  - intros i w H. simpl in H. rewrite lookup_nil in H. discriminate H.
  - intros c d H. simpl in H. rewrite lookup_empty in H. discriminate H.
Qed.

(** The invariant holds in every state the program reaches. *)
Lemma run_inv (supported : list string) (np_exp : Q -> Q) (evs : list event) :
  system_inv (run supported np_exp evs).
Proof.
  unfold run. induction evs as [| ev evs IH] using rev_ind.
  - apply initial_system_inv.
  - rewrite fold_left_app. simpl. apply step_keeps_inv. exact IH.
Qed.

(** Whether an iteration sends is the value of [send_alert]. *)
Lemma dispatched_send_alert (np_exp : Q -> Q) (st : state) (chat_id : Z)
    (key : string) (interval : Z) (signal : option Signal)
    (desc img : option string) (price : option Q) :
  entered st chat_id ->
  get_signal np_exp (prices st) key = Ok (signal, desc, img, price) ->
  dispatched (alert_iteration np_exp st chat_id key interval)
  = match send_alert_of st chat_id key signal price with
    | Ok b => b
    | Raise _ => false
    end.
Proof.
  intros [[ds Hds] [dp Hdp]] Hg. unfold alert_iteration. rewrite Hg.
  destruct (send_alert_of st chat_id key signal price) as [[|] | e];
    [| reflexivity | reflexivity].
  rewrite Hds, Hdp. unfold dispatched. cbn [fst existsb is_send].
  rewrite send_of_is_send. reflexivity.
Qed.

(** The notification rule, on any state that satisfies the invariant and
    in which the worker has entered [alert_pair]. *)
Lemma notify_rule (np_exp : Q -> Q) (st : state) (chat_id : Z) (key : string)
    (interval : Z) :
  alert_state_inv st -> entered st chat_id ->
  exists signal desc img price,
    get_signal np_exp (prices st) key = Ok (signal, desc, img, price)
    /\ (dispatched (alert_iteration np_exp st chat_id key interval) = true
        <-> signal <> last_signal_of st chat_id key
            \/ exists lp p,
                 last_price_of st chat_id key = Some lp
                 /\ price = Some p
                 /\ (SIGNAL_THRESHOLD <= Qabs (p - lp))%Q).
Proof.
  intros [Hsent Hprice] Hent.
  pose proof Hent as [[ds Hds] [dp Hdp]].
  assert (last_signal_of st chat_id key = default None (ds !! key)) as Hls.
  { unfold last_signal_of, read. rewrite Hds. simpl.
    destruct (ds !! key); reflexivity. }
  assert (last_price_of st chat_id key = default None (dp !! key)) as Hlp.
  { unfold last_price_of, read. rewrite Hdp. simpl.
    destruct (dp !! key); reflexivity. }
  rewrite Hls, Hlp.
  destruct (get_signal_result np_exp (prices st) key)
    as [[Hg Hshort] | [Hlong (sg & desc & c & img & price & Hg)]].
  - exists None, None, None, None. split; [exact Hg |].
    rewrite (dispatched_send_alert _ _ _ _ _ _ _ _ _ Hent Hg).
    assert (ds !! key = None) as Hk1.
    { destruct (ds !! key) as [v |] eqn:E; [| reflexivity].
      pose proof (Hsent chat_id ds key v Hds E) as H. unfold history in H. lia. }
    assert (dp !! key = None) as Hk2.
    { destruct (dp !! key) as [v |] eqn:E; [| reflexivity].
      destruct (Hprice chat_id dp key v Hdp E) as [H _].
      unfold history in H. lia. }
    unfold send_alert_of. rewrite Hdp, Hk1, Hk2. simpl.
    split; [discriminate |].
    intros [H | (lp & p & H & _)]; [contradiction | discriminate].
  - exists (Some sg), (Some desc), (Some (String c img)), (Some price).
    split; [exact Hg |].
    rewrite (dispatched_send_alert _ _ _ _ _ _ _ _ _ Hent Hg).
    unfold send_alert_of. rewrite Hds, Hdp.
    destruct (bool_decide (default None (ds !! key) ≠ Some sg)) eqn:Hdiff.
    + apply bool_decide_eq_true in Hdiff.
      split; [intros _; left; congruence | intros _; reflexivity].
    + apply bool_decide_eq_false in Hdiff.
      assert (default None (ds !! key) = Some sg) as Hsame.
      { destruct (decide (default None (ds !! key) = Some sg));
          [assumption | contradiction]. }
      destruct (dp !! key) as [[lp |] |] eqn:Hk.
      * simpl default.
        destruct (Qle_bool SIGNAL_THRESHOLD (Qabs (price - lp))) eqn:Hthr.
        -- split; [intros _ | intros _; reflexivity].
           right. exists lp, price. split; [reflexivity |].
           split; [reflexivity |]. apply Qle_bool_iff. exact Hthr.
        -- split; [discriminate |].
           intros [H | (lp' & p & Hl & Hp & H)]; [congruence |].
           injection Hl as <-. injection Hp as <-.
           apply Qle_bool_iff in H. congruence.
      * destruct (Hprice chat_id dp key None Hdp Hk) as [_ [? ?]].
        discriminate.
      * simpl default. split; [discriminate |].
        intros [H | (lp' & p & H & _)]; [congruence | discriminate].
Qed.

(** A worker inside its loop, in a state the program reaches, has
    entered [alert_pair]. *)
Lemma looping_worker_entered (supported : list string) (np_exp : Q -> Q)
    (evs : list event) (i : nat) (w : worker) :
  sys_workers (run supported np_exp evs) !! i = Some w ->
  w_phase w = Looping ->
  entered (sys_state (run supported np_exp evs)) (th_chat (w_thread w)).
Proof.
  intros Hi Hph.
  destruct (run_inv supported np_exp evs) as (_ & Hw & _).
  apply (Hw i w Hi Hph).
Qed.

(** C2. In every poll iteration of a worker that is inside its loop, in
    every state the program reaches, a notification is dispatched if and
    only if the computed signal differs from the stored last signal (the
    absent signal counting as a value) or a last price is stored and the
    current price is at least 0.0005 away from it. *)
Theorem notify_iff_signal_or_price_changed (supported : list string)
    (np_exp : Q -> Q) (evs : list event) (i : nat) (w : worker) :
  let st := sys_state (run supported np_exp evs) in
  let chat_id := th_chat (w_thread w) in
  let key := th_pair (w_thread w) in
  sys_workers (run supported np_exp evs) !! i = Some w ->
  w_phase w = Looping ->
  exists signal desc img price,
    get_signal np_exp (prices st) key = Ok (signal, desc, img, price)
    /\ (dispatched (alert_iteration np_exp st chat_id key
                      (th_interval (w_thread w))) = true
        <-> signal <> last_signal_of st chat_id key
            \/ exists lp p,
                 last_price_of st chat_id key = Some lp
                 /\ price = Some p
                 /\ (SIGNAL_THRESHOLD <= Qabs (p - lp))%Q).
Proof.
  intros st chat_id key Hi Hph. apply notify_rule.
  - apply run_inv.
  - eapply looping_worker_entered; eassumption.
Qed.

Lemma notify_iff_signal_or_price_changed_witness :
  let st := sys_state (run ["FRXEURUSD"] exp_taylor example_run) in
  exists signal desc img price,
    get_signal exp_taylor (prices st) "FRXEURUSD"
    = Ok (signal, desc, img, price)
    /\ (dispatched (alert_iteration exp_taylor st 1 "FRXEURUSD" 5) = true
        <-> signal <> last_signal_of st 1 "FRXEURUSD"
            \/ exists lp p,
                 last_price_of st 1 "FRXEURUSD" = Some lp
                 /\ price = Some p
                 /\ (SIGNAL_THRESHOLD <= Qabs (p - lp))%Q).
Proof.
  apply (notify_iff_signal_or_price_changed ["FRXEURUSD"] exp_taylor
           example_run 0 (mkWorker (mkThread 1 "FRXEURUSD" 5) Looping)).
  - reflexivity.
  - reflexivity.
Defined.

(** The three cases of the rule on a run: the first poll after the
    fourteenth tick sends (the signal is new); after a tick that moves the
    price by 0.0001 and keeps the signal the next poll is silent; after a
    tick that moves it by 0.001 the poll sends again. *)
Example notify_rule_on_a_run :
  let poll evs :=
    dispatched
      (alert_iteration exp_taylor
         (sys_state (run ["FRXEURUSD"] exp_taylor evs)) 1 "FRXEURUSD" 5) in
  let tick q := EvMessage (Tick "FRXEURUSD" q) in
  poll example_run = true
  /\ poll (example_run ++ [EvWorker 0]) = false
  /\ poll (example_run ++ [EvWorker 0; tick (140001 # 10000)]) = false
  /\ poll (example_run ++ [EvWorker 0; tick (14001 # 1000)]) = true.
Proof. cbv zeta. repeat split; vm_compute; reflexivity. Qed.

(** ** One worker per subscribe request *)





(** * Further properties of the code *)

(** ** The feed *)

Lemma feed_step_dom (p : gmap string (list Q)) (m : message) :
  dom (feed_step p m) = dom p.
Proof.
  unfold feed_step, on_message. destruct m as [s q |]; [| reflexivity].
  destruct (p !! s) as [l |] eqn:E; [| reflexivity].
  apply dom_insert_lookup_L. rewrite E. eexists. reflexivity.
Qed.

(** X1. The feed never adds or removes a symbol: the keys of [prices]
    stay the ones of the start. A tick for a symbol that is no key raises
    [KeyError] in the callback and leaves the store as it was. *)
Theorem feed_keeps_symbols (msgs : list message) (p : gmap string (list Q)) :
  dom (feed msgs p) = dom p
  /\ (forall s q, p !! s = None ->
                  on_message p (Tick s q) = Raise KeyError
                  /\ feed (msgs ++ [Tick s q]) p = feed msgs p).
Proof.
  assert (forall ms q0, dom (feed ms q0) = dom q0) as Hdom.
  { intros ms. unfold feed. induction ms as [| m ms IH]; intros q0.
    - reflexivity.
    - simpl. rewrite IH. apply feed_step_dom. }
  split; [apply Hdom |].
  intros s q Hs. split.
  - unfold on_message. rewrite Hs. reflexivity.
  - unfold feed. rewrite fold_left_app. simpl.
    fold (feed msgs p). unfold feed_step, on_message.
    assert (feed msgs p !! s = None) as ->; [| reflexivity].
    apply not_elem_of_dom. rewrite Hdom. apply not_elem_of_dom. exact Hs.
Qed.

(** ** The RSI *)

Lemma np_sum_nonneg (l : list Q) :
  Forall (fun x => 0 <= x)%Q l -> (0 <= np_sum l)%Q.
Proof.
  induction 1 as [| x l Hx _ IH].
  - rewrite np_sum_nil. lra.
  - rewrite np_sum_cons. lra.
Qed.

Lemma np_sum_nonpos (l : list Q) :
  Forall (fun x => x <= 0)%Q l -> (np_sum l <= 0)%Q.
Proof.
  induction 1 as [| x l Hx _ IH].
  - rewrite np_sum_nil. lra.
  - rewrite np_sum_cons. lra.
Qed.

Lemma gains_nonneg (l : list Q) :
  (0 <= np_sum (filter (fun d => Qltb 0 d) l))%Q.
Proof.
  apply np_sum_nonneg. apply Forall_forall. intros x Hx.
  apply list_elem_of_filter in Hx as [Hx _].
  apply Is_true_true, Qltb_lt in Hx. lra.
Qed.

Lemma losses_nonpos (l : list Q) :
  (np_sum (filter (fun d => Qltb d 0) l) <= 0)%Q.
Proof.
  apply np_sum_nonpos. apply Forall_forall. intros x Hx.
  apply list_elem_of_filter in Hx as [Hx _].
  apply Is_true_true, Qltb_lt in Hx. lra.
Qed.



(** The shape of the result: 100 when the losses are zero, and below 100
    otherwise. *)
Lemma calculate_rsi_value (l : list Q) (period : nat) (r : Q) :
  (0 < period)%nat -> calculate_rsi l period = Some r ->
  let losses := np_sum (filter (fun d => Qltb d 0) (np_diff l)) in
  ((losses == 0)%Q /\ r = 100%Q)
  \/ (~ (losses == 0)%Q /\ (0 <= r < 100)%Q).
Proof.
  intros Hp. unfold calculate_rsi.
  destruct (length l <? period)%nat; [discriminate |].
  set (U := np_sum (filter (fun d => Qltb 0 d) (np_diff l))).
  set (D := np_sum (filter (fun d => Qltb d 0) (np_diff l))).
  set (P := inject_Z (Z.of_nat period)).
  assert (0 < P)%Q as HP.
  { unfold P. change 0%Q with (inject_Z 0). rewrite <- Zlt_Qlt. lia. }
  assert (0 <= U)%Q as HU by apply gains_nonneg.
  assert (D <= 0)%Q as HD by apply losses_nonpos.
  cbv zeta.
  destruct (Qeq_bool (- D / P) 0) eqn:E.
  - intros [= <-]. left. split; [| reflexivity].
    apply Qeq_bool_eq in E.
    assert (- D == (- D / P) * P)%Q as H by (field; lra).
    rewrite E in H. lra.
  - intros [= <-]. right.
    apply Qeq_bool_neq in E.
    assert (~ D == 0)%Q as HD0.
    { intros H. apply E. rewrite H. field. lra. }
    split; [exact HD0 |].
    assert (0 < - D / P)%Q as Hdown.
    { apply Qlt_shift_div_l; [exact HP | lra]. }
    assert (0 <= U / P)%Q as Hup.
    { apply Qle_shift_div_l; [exact HP | lra]. }
    assert (0 <= U / P / (- D / P))%Q as Hrs.
    { apply Qle_shift_div_l; [exact Hdown | lra]. }
    set (rs := (U / P / (- D / P))%Q) in *.
    assert (0 < 100 / (1 + rs))%Q as H1.
    { apply Qlt_shift_div_l; lra. }
    assert (100 / (1 + rs) <= 100)%Q as H2.
    { apply Qle_shift_div_r; [lra | nra]. }
    lra.
Qed.

(** X2. Whenever the RSI is present (and the period is positive) it lies
    between 0 and 100. *)
Theorem calculate_rsi_range (l : list Q) (period : nat) (r : Q) :
  (0 < period)%nat -> calculate_rsi l period = Some r -> (0 <= r <= 100)%Q.
Proof.
  intros Hp Hr.
  destruct (calculate_rsi_value l period r Hp Hr) as [[_ ->] | [_ H]]; lra.
Qed.

Lemma calculate_rsi_range_witness :
  (0 <= 1400 # 28 <= 100)%Q.
Proof.
  apply (calculate_rsi_range rsi_example 14 (1400 # 28)).
  - lia.
  - vm_compute. reflexivity.
Defined.



(** ** The EMA *)








(** ** The status command *)

Lemma description_of_short (np_exp : Q -> Q) (st : state) (key : string) :
  (length (history st key) < 14)%nat -> description_of np_exp st key = Ok None.
Proof.
  intros H. unfold description_of. unfold history in H.
  rewrite get_signal_short by exact H. reflexivity.
Qed.

Lemma description_of_long (np_exp : Q -> Q) (st : state) (key : string) :
  (14 <= length (history st key))%nat ->
  exists desc, description_of np_exp st key = Ok (Some desc).
Proof.
  intros H. unfold description_of. unfold history in H.
  destruct (get_signal_result np_exp (prices st) key)
    as [[_ Hs] | [_ (sg & desc & c & img & price & ->)]]; [lia |].
  exists desc. reflexivity.
Qed.

Lemma py_join_None (sep : string) (items : list (option string)) :
  None ∈ items -> py_join sep items = Raise TypeError.
Proof.
  induction items as [| [s |] rest IH]; intros Hin.
  - apply not_elem_of_nil in Hin. contradiction.
  - apply elem_of_cons in Hin as [Hin | Hin]; [discriminate |].
    simpl. destruct rest as [| x rest'].
    + apply not_elem_of_nil in Hin. contradiction.
    + rewrite IH by exact Hin. reflexivity.
  - reflexivity.
Qed.

Lemma py_join_Some (sep : string) (items : list (option string)) :
  Forall is_Some items -> exists text, py_join sep items = Ok text.
Proof.
  induction 1 as [| x rest [s ->] _ [text IH]].
  - eexists. reflexivity.
  - simpl. destruct rest as [| y rest'].
    + eexists. reflexivity.
    + rewrite IH. eexists. reflexivity.
Qed.

Lemma status_descriptions (np_exp : Q -> Q) (st : state) (keys : list string) :
  exists items,
    res_map (description_of np_exp st) keys = Ok items
    /\ (Exists (fun key => length (history st key) < 14)%nat keys ->
        None ∈ items)
    /\ (Forall (fun key => 14 <= length (history st key))%nat keys ->
        Forall is_Some items).
Proof.
  induction keys as [| key keys (items & IH & Hex & Hall)].
  - exists []. split; [reflexivity |]. split.
    + intros H. inversion H.
    + intros _. constructor.
  - destruct (Nat.lt_ge_cases (length (history st key)) 14) as [Hs | Hl].
    + exists (None :: items). split.
      * simpl. rewrite description_of_short by exact Hs. simpl.
        rewrite IH. reflexivity.
      * split; [intros _; apply elem_of_cons; left; reflexivity |].
        intros H. inversion H; subst. lia.
    + destruct (description_of_long np_exp st key Hl) as [desc Hd].
      exists (Some desc :: items). split.
      * simpl. rewrite Hd. simpl. rewrite IH. reflexivity.
      * split.
        -- intros H. apply elem_of_cons. right. apply Hex.
           inversion H; subst; [lia | assumption].
        -- intros H. inversion H; subst.
           constructor; [eexists; reflexivity | apply Hall; assumption].
Qed.

(** X5. [status_command] asks for the description of every entry of the
    chat, the unsubscribed ones with interval 0 included. When one of
    these pairs has fewer than 14 samples its description is [None] and
    the join raises [TypeError], so nothing is sent; when all have 14
    samples the reply is a text. *)
Theorem status_needs_full_history (np_exp : Q -> Q) (st : state) (chat_id : Z)
    (subs : list (string * Z)) :
  subscriptions st !! chat_id = Some subs -> subs <> [] ->
  (Exists (fun key => length (history st key) < 14)%nat (PyDict.keys subs) ->
   status_command np_exp st chat_id = Raise TypeError)
  /\ (Forall (fun key => 14 <= length (history st key))%nat (PyDict.keys subs) ->
      exists text, status_command np_exp st chat_id = Ok (StatusText text)).
Proof.
  intros Hsubs Hne. unfold status_command. rewrite Hsubs.
  destruct subs as [| entry subs']; [contradiction |].
  destruct (status_descriptions np_exp st (PyDict.keys (entry :: subs')))
    as (items & -> & Hex & Hall).
  split.
  - intros H. simpl. rewrite py_join_None by (apply Hex; exact H). reflexivity.
  - intros H. destruct (py_join_Some (nl ++ nl)%string items (Hall H))
      as [text Ht].
    exists text. simpl. rewrite Ht. reflexivity.
Qed.

Lemma status_needs_full_history_witness :
  let st := sys_state (run ["FRXEURUSD"] exp_taylor
                         [EvSubscribe 1 ["frxeurusd"; "5"];
                          EvUnsubscribe 1 ["frxeurusd"]]) in
  (Exists (fun key => length (history st key) < 14)%nat
     (PyDict.keys [("FRXEURUSD", 0)]) ->
   status_command exp_taylor st 1 = Raise TypeError)
  /\ (Forall (fun key => 14 <= length (history st key))%nat
        (PyDict.keys [("FRXEURUSD", 0)]) ->
      exists text, status_command exp_taylor st 1 = Ok (StatusText text)).
Proof.
  apply (status_needs_full_history exp_taylor _ 1 [("FRXEURUSD", 0)]).
  - reflexivity.
  - discriminate.
Defined.

(** ** The buttons *)



(** ** Unsubscribing *)

Lemma unsubscribe_found (st : state) (chat_id : Z) (arg0 : string)
    (rest : list string) :
  snd (unsubscribe_command st chat_id (arg0 :: rest))
  = Unsubscribed (upper arg0) ->
  exists subs,
    subscriptions st !! chat_id = Some subs
    /\ PyDict.mem subs (upper arg0) = true
    /\ fst (unsubscribe_command st chat_id (arg0 :: rest))
       = with_subscriptions st
           (<[chat_id := PyDict.set subs (upper arg0) 0]> (subscriptions st)).
Proof.
  unfold unsubscribe_command.
  destruct (subscriptions st !! chat_id) as [subs |]; [| discriminate].
  destruct (PyDict.mem subs (upper arg0)) eqn:E; [| discriminate].
  intros _. exists subs. split; [reflexivity |].
  split; [exact E | reflexivity].
Qed.

Lemma unsubscribe_stops_running (st : state) (chat_id : Z) (arg0 : string)
    (rest : list string) :
  snd (unsubscribe_command st chat_id (arg0 :: rest))
  = Unsubscribed (upper arg0) ->
  alert_running (fst (unsubscribe_command st chat_id (arg0 :: rest)))
    chat_id (upper arg0) = false.
Proof.
  intros H. destruct (unsubscribe_found _ _ _ _ H) as (subs & _ & _ & ->).
  unfold alert_running. simpl. rewrite lookup_insert_eq. simpl.
  rewrite PyDict_get_set_eq. reflexivity.
Qed.

(** X7. Cancellation is cooperative: after an unsubscribe that found the
    pair, a worker of that pair that is inside its loop leaves the loop
    the next time it is scheduled, without polling, storing or sending. *)
Theorem unsubscribed_worker_exits (supported : list string) (np_exp : Q -> Q)
    (sys : system) (chat_id : Z) (arg0 : string) (rest : list string)
    (i : nat) (w : worker) :
  sys_workers sys !! i = Some w ->
  w_phase w = Looping ->
  th_chat (w_thread w) = chat_id ->
  th_pair (w_thread w) = upper arg0 ->
  snd (unsubscribe_command (sys_state sys) chat_id (arg0 :: rest))
  = Unsubscribed (upper arg0) ->
  let sys1 := step supported np_exp sys (EvUnsubscribe chat_id (arg0 :: rest)) in
  let sys2 := step supported np_exp sys1 (EvWorker i) in
  sys_workers sys2 !! i = Some (mkWorker (w_thread w) Exited)
  /\ sys_state sys2 = sys_state sys1.
Proof.
  intros Hi Hph Hc Hk Hun. cbv zeta.
  pose proof (unsubscribe_stops_running _ _ _ _ Hun) as Hstop.
  change (step supported np_exp sys (EvUnsubscribe chat_id (arg0 :: rest)))
    with (mkSystem
            (fst (unsubscribe_command (sys_state sys) chat_id (arg0 :: rest)))
            (sys_workers sys)).
  unfold step. cbn [sys_state sys_workers].
  rewrite Hi. unfold worker_step. rewrite Hph, Hc, Hk, Hstop.
  cbn [sys_state sys_workers]. split; [| reflexivity].
  apply list_lookup_insert_eq. apply lookup_lt_Some in Hi. exact Hi.
Qed.

Lemma unsubscribed_worker_exits_witness :
  let sys := run ["FRXEURUSD"] exp_taylor example_run in
  let sys1 := step ["FRXEURUSD"] exp_taylor sys
                (EvUnsubscribe 1 ["FrxEurUsd"]) in
  let sys2 := step ["FRXEURUSD"] exp_taylor sys1 (EvWorker 0) in
  sys_workers sys2 !! 0%nat
  = Some (mkWorker (w_thread (mkWorker (mkThread 1 "FRXEURUSD" 5) Looping))
            Exited)
  /\ sys_state sys2 = sys_state sys1.
Proof.
  apply (unsubscribed_worker_exits ["FRXEURUSD"] exp_taylor
           (run ["FRXEURUSD"] exp_taylor example_run) 1 "FrxEurUsd" [] 0
           (mkWorker (mkThread 1 "FRXEURUSD" 5) Looping));
    reflexivity.
Defined.

(** X8. [unsubscribe_command] never removes an entry: every chat keeps
    its pairs in their order, and only the interval of the named pair of
    the chat can change. Prices and alert state are not touched. *)
Theorem unsubscribe_keeps_entries (st : state) (chat_id : Z)
    (args : list string) :
  let st' := fst (unsubscribe_command st chat_id args) in
  prices st' = prices st
  /\ last_sent st' = last_sent st
  /\ last_price st' = last_price st
  /\ (forall c, PyDict.keys (default [] (subscriptions st' !! c))
               = PyDict.keys (default [] (subscriptions st !! c)))
  /\ (forall c k,
         (c, k) <> (chat_id, upper (hd EmptyString args)) ->
         PyDict.get (default [] (subscriptions st' !! c)) k
         = PyDict.get (default [] (subscriptions st !! c)) k).
Proof.
  cbv zeta. unfold unsubscribe_command.
  destruct args as [| arg0 rest]; [repeat split |].
  destruct (subscriptions st !! chat_id) as [subs |] eqn:E; [| repeat split].
  destruct (PyDict.mem subs (upper arg0)) eqn:Hm; [| repeat split].
  cbn [fst prices last_sent last_price subscriptions with_subscriptions hd].
  split; [reflexivity |]. split; [reflexivity |]. split; [reflexivity |].
  split.
  - intros c. destruct (decide (chat_id = c)) as [<- | Hc].
    + rewrite lookup_insert_eq, E. simpl.
      apply PyDict_keys_set_present. exact Hm.
    + rewrite lookup_insert_ne by exact Hc. reflexivity.
  - intros c k Hne. destruct (decide (chat_id = c)) as [<- | Hc].
    + rewrite lookup_insert_eq, E. simpl.
      apply PyDict_get_set_ne. congruence.
    + rewrite lookup_insert_ne by exact Hc. reflexivity.
Qed.

(** X9. An unsubscribe request undoes an accepted subscribe request
    whatever the case of its text: it finds the pair, and the loop test of
    the pair's workers fails afterwards. *)
Theorem unsubscribe_undoes_subscribe (supported : list string) (st : state)
    (chat_id : Z) (arg0 arg1 : string) (rest : list string) (interval : Z)
    (text : string) (rest' : list string) :
  py_in (upper arg0) supported = true ->
  py_int arg1 = Ok interval ->
  upper text = upper arg0 ->
  exists st1 threads answer,
    subscribe_command supported st chat_id (arg0 :: arg1 :: rest)
    = Ok (st1, threads, answer)
    /\ snd (unsubscribe_command st1 chat_id (text :: rest'))
       = Unsubscribed (upper arg0)
    /\ alert_running (fst (unsubscribe_command st1 chat_id (text :: rest')))
         chat_id (upper arg0) = false.
Proof.
  intros Hin Hint Htext. apply bool_decide_eq_true in Hin.
  eexists _, _, _. split; [apply subscribe_accepts; eassumption |].
  assert (snd (unsubscribe_command
                 (with_subscriptions st
                    (<[chat_id := PyDict.set
                                    (default [] (subscriptions st !! chat_id))
                                    (upper arg0) interval]> (subscriptions st)))
                 chat_id (text :: rest')) = Unsubscribed (upper text)) as Hun.
  { unfold unsubscribe_command. simpl. rewrite lookup_insert_eq.
    unfold PyDict.mem. rewrite Htext, PyDict_get_set_eq. reflexivity. }
  split; [rewrite Hun, Htext; reflexivity |].
  pose proof (unsubscribe_stops_running _ _ _ _ Hun) as H.
  rewrite Htext in H. exact H.
Qed.

Lemma unsubscribe_undoes_subscribe_witness :
  exists st1 threads answer,
    subscribe_command ["FRXEURUSD"] (initial_state ["FRXEURUSD"]) 1
      ["frxeurusd"; "5"] = Ok (st1, threads, answer)
    /\ snd (unsubscribe_command st1 1 ["FrxEurUsd"])
       = Unsubscribed (upper "frxeurusd")
    /\ alert_running (fst (unsubscribe_command st1 1 ["FrxEurUsd"])) 1
         (upper "frxeurusd") = false.
Proof.
  apply (unsubscribe_undoes_subscribe ["FRXEURUSD"]
           (initial_state ["FRXEURUSD"]) 1 "frxeurusd" "5" [] 5 "FrxEurUsd" []);
    reflexivity.
Defined.

(** ** No repeated alert *)






(** ** Workers do not raise *)





(** ** Signal and price are stored together *)

Lemma paired_frame (st st' : state) :
  last_sent st' = last_sent st -> last_price st' = last_price st ->
  paired st -> paired st'.
Proof. unfold paired. intros -> ->. tauto. Qed.

Lemma paired_enter (st : state) (chat_id : Z) :
  paired st -> paired (alert_pair_enter st chat_id).
Proof.
  intros Hp c. destruct (Hp c) as [Hout Hin].
  destruct (Hp chat_id) as [Hout' _].
  unfold alert_pair_enter. simpl.
  destruct (last_sent st !! chat_id) as [ds0 |] eqn:Es;
    destruct (last_price st !! chat_id) as [dp0 |] eqn:Ep.
  - split; assumption.
  - exfalso. assert (Some ds0 = None) as H by (apply Hout'; reflexivity).
    discriminate H.
  - exfalso. assert (Some dp0 = None) as H by (apply Hout'; reflexivity).
    discriminate H.
  - destruct (decide (chat_id = c)) as [<- | Hc].
    + rewrite !lookup_insert_eq. split; [split; discriminate |].
      intros ds dp key [= <-] [= <-]. rewrite !lookup_empty.
      split; [tauto | discriminate].
    + rewrite !lookup_insert_ne by exact Hc. split; assumption.
Qed.

Lemma paired_store (st : state) (chat_id : Z) (key : string) (sg : Signal)
    (price : Q) :
  paired st ->
  paired {| prices := prices st;
            subscriptions := subscriptions st;
            last_sent := alter (fun d => <[key := Some sg]> d) chat_id
                           (last_sent st);
            last_price := alter (fun d => <[key := Some price]> d) chat_id
                            (last_price st) |}.
Proof.
  intros Hp c. destruct (Hp c) as [Hout Hin]. simpl.
  destruct (decide (chat_id = c)) as [<- | Hc].
  - rewrite !lookup_alter_eq.
    destruct (last_sent st !! chat_id) as [ds0 |] eqn:Es;
      destruct (last_price st !! chat_id) as [dp0 |] eqn:Ep; simpl.
    + split; [split; discriminate |].
      intros ds dp k [= <-] [= <-].
      destruct (Hin ds0 dp0 k eq_refl eq_refl) as [Hk Hv].
      destruct (decide (key = k)) as [<- | Hne].
      * rewrite !lookup_insert_eq. split; [split; discriminate |].
        intros v [= <-]. eexists. reflexivity.
      * rewrite !lookup_insert_ne by exact Hne. split; assumption.
    + exfalso. assert (Some ds0 = None) as H by (apply Hout; reflexivity).
      discriminate H.
    + exfalso. assert (Some dp0 = None) as H by (apply Hout; reflexivity).
      discriminate H.
    + split; [tauto |]. intros ds dp k H. discriminate H.
  - rewrite !lookup_alter_ne by exact Hc. split; assumption.
Qed.

Lemma paired_iteration (np_exp : Q -> Q) (st : state) (chat_id : Z)
    (key : string) (interval : Z) :
  entered st chat_id -> paired st ->
  paired (run_effects st
            (fst (alert_iteration np_exp st chat_id key interval))).
Proof.
  intros Hent Hp.
  destruct (alert_iteration_cases np_exp st chat_id key interval Hent)
    as (signal & desc & img & price & _
        & [[_ ->] | [[e ->] | (Hg & Hs & ->)]]); try exact Hp.
  cbn [fst]. rewrite run_effects_store by apply send_of_is_send.
  destruct (get_signal_result np_exp (prices st) key)
    as [[Hg' _] | [_ (sg & desc' & c & img' & p & Hg')]];
    rewrite Hg in Hg'; injection Hg' as -> -> -> ->.
  - apply send_alert_needs_signal in Hs as [? ?]. discriminate.
  - apply paired_store. exact Hp.
Qed.

Lemma paired_step (supported : list string) (np_exp : Q -> Q) (sys : system)
    (ev : event) :
  system_inv sys -> paired (sys_state sys) ->
  paired (sys_state (step supported np_exp sys ev)).
Proof.
  intros (_ & Hent & _) Hp. unfold step.
  destruct ev as [m | chat_id args | chat_id args | chat_id | i].
  - exact Hp.
  - destruct (subscribe_command_cases supported (sys_state sys) chat_id args)
      as [[e ->] | [[answer ->] | (key & interval & ->)]]; exact Hp.
  - simpl. eapply paired_frame; [| | exact Hp];
      unfold unsubscribe_command;
      destruct args as [| arg0 rest]; try reflexivity;
      destruct (subscriptions (sys_state sys) !! chat_id) as [subs |];
      try reflexivity; destruct (PyDict.mem subs (upper arg0)); reflexivity.
  - exact Hp.
  - destruct (sys_workers sys !! i) as [w |] eqn:Hi; [| exact Hp].
    unfold worker_step. destruct (w_phase w) eqn:Hph; simpl.
    + apply paired_enter. exact Hp.
    + destruct (alert_running _ _ _); [| exact Hp].
      pose proof (paired_iteration np_exp (sys_state sys)
                    (th_chat (w_thread w)) (th_pair (w_thread w))
                    (th_interval (w_thread w)) (Hent i w Hi Hph) Hp) as H.
      destruct (alert_iteration _ _ _ _ _) as [effects raised]. exact H.
    + exact Hp.
    + exact Hp.
Qed.

Lemma run_paired (supported : list string) (np_exp : Q -> Q)
    (evs : list event) :
  paired (sys_state (run supported np_exp evs)).
Proof.
  induction evs as [| ev evs IH] using rev_ind.
  - intros c. simpl. rewrite !lookup_empty. split; [tauto |].
    intros ds dp key H. discriminate H.
  - unfold run. rewrite fold_left_app. simpl. apply paired_step.
    + apply run_inv.
    + exact IH.
Qed.

(** X12. In every state the program reaches, a last signal is stored for
    a (chat, pair) exactly when a last price is stored for it, and then
    the pair's history has at least 14 samples. *)
Theorem alert_state_is_paired (supported : list string) (np_exp : Q -> Q)
    (evs : list event) (chat_id : Z) (key : string) :
  let st := sys_state (run supported np_exp evs) in
  (is_Some (last_signal_of st chat_id key)
   <-> is_Some (last_price_of st chat_id key))
  /\ (is_Some (last_signal_of st chat_id key) ->
      (14 <= length (history st key))%nat).
Proof.
  cbv zeta.
  pose proof (run_paired supported np_exp evs chat_id) as [Hout Hin].
  pose proof (run_inv supported np_exp evs) as ([Hsent Hprice] & _ & _).
  set (st := sys_state (run supported np_exp evs)) in *.
  unfold last_signal_of, last_price_of, read.
  destruct (last_sent st !! chat_id) as [ds |] eqn:Es;
    destruct (last_price st !! chat_id) as [dp |] eqn:Ep; simpl.
  - destruct (Hin ds dp key eq_refl eq_refl) as [Hk Hv].
    destruct (ds !! key) as [v |] eqn:Ek; destruct (dp !! key) as [u |] eqn:Eu;
      simpl.
    + destruct (Hv v eq_refl) as [sg ->].
      destruct (Hprice chat_id dp key u Ep Eu) as [Hlen [p ->]].
      split; [split; intros _; eexists; reflexivity | intros _; exact Hlen].
    + exfalso. assert (Some v = None) as H by (apply Hk; reflexivity).
      discriminate H.
    + exfalso. assert (Some u = None) as H by (apply Hk; reflexivity).
      discriminate H.
    + split; [split |]; intros [? H]; discriminate H.
  - exfalso. assert (Some ds = None) as H by (apply Hout; reflexivity).
    discriminate H.
  - exfalso. assert (Some dp = None) as H by (apply Hout; reflexivity).
    discriminate H.
  - split; [split |]; intros [? H]; discriminate H.
Qed.

(** ** From the feed to the signal *)

Lemma last_lastn {A : Type} (n : nat) (l : list A) :
  (0 < n)%nat -> last (lastn n l) = last l.
Proof.
  intros Hn. unfold lastn.
  destruct (decide (length l <= n)%nat) as [Hle | Hgt].
  - replace (length l - n)%nat with 0%nat by lia. reflexivity.
  - transitivity (last (take (length l - n) l ++ drop (length l - n) l));
      [| rewrite take_drop; reflexivity].
    rewrite last_app.
    destruct (last (drop (length l - n) l)) eqn:E; [reflexivity |].
    apply last_None in E. apply (f_equal length) in E.
    rewrite length_drop in E. simpl in E. lia.
Qed.

(** X13. For a supported symbol, [get_signal] gives the four [None]
    exactly until the fourteenth tick of the symbol has arrived; from
    then on it gives a signal whose price is the quote of the latest tick. *)
Theorem signal_from_fourteenth_tick (supported : list string)
    (np_exp : Q -> Q) (msgs : list message) (symbol : string) :
  symbol ∈ supported ->
  let store := feed msgs (initial_prices supported) in
  ((length (quotes_of symbol msgs) < 14)%nat ->
   get_signal np_exp store symbol = Ok no_signal)
  /\ ((14 <= length (quotes_of symbol msgs))%nat ->
      exists sg desc img quote,
        last (quotes_of symbol msgs) = Some quote
        /\ get_signal np_exp store symbol
           = Ok (Some sg, Some desc, Some img, Some quote)).
Proof.
  intros Hin. cbv zeta.
  pose proof (feed_lookup supported msgs symbol) as Hl.
  rewrite bool_decide_eq_true_2 in Hl by exact Hin.
  split.
  - intros Hshort. apply get_signal_short. rewrite Hl. simpl.
    rewrite lastn_length. lia.
  - intros Hlong.
    assert (14 <= length (default [] (feed msgs (initial_prices supported)
                                        !! symbol)))%nat as Hlen.
    { rewrite Hl. simpl. rewrite lastn_length.
      unfold PRICE_HISTORY_LENGTH. lia. }
    destruct (get_signal_long np_exp _ symbol Hlen)
      as (rsi & ema & price & _ & _ & Hlast & ->).
    destruct (classify_shape symbol rsi ema price) as (sg & desc & c & img & ->).
    exists sg, desc, (String c img), price. split; [| reflexivity].
    rewrite Hl in Hlast. simpl in Hlast.
    rewrite last_lastn in Hlast by (unfold PRICE_HISTORY_LENGTH; lia).
    exact Hlast.
Qed.

Lemma signal_from_fourteenth_tick_witness :
  let store := feed (map (Tick "frxEURUSD") (repeat 1%Q 14))
                 (initial_prices SUPPORTED_PAIRS_src) in
  ((length (quotes_of "frxEURUSD" (map (Tick "frxEURUSD") (repeat 1%Q 14)))
    < 14)%nat ->
   get_signal exp_taylor store "frxEURUSD" = Ok no_signal)
  /\ ((14 <= length (quotes_of "frxEURUSD"
                       (map (Tick "frxEURUSD") (repeat 1%Q 14))))%nat ->
      exists sg desc img quote,
        last (quotes_of "frxEURUSD" (map (Tick "frxEURUSD") (repeat 1%Q 14)))
        = Some quote
        /\ get_signal exp_taylor store "frxEURUSD"
           = Ok (Some sg, Some desc, Some img, Some quote)).
Proof.
  apply (signal_from_fourteenth_tick SUPPORTED_PAIRS_src exp_taylor
           (map (Tick "frxEURUSD") (repeat 1%Q 14)) "frxEURUSD").
  apply elem_of_cons. left. reflexivity.
Defined.

(** ** Only supported pairs are stored *)

Lemma PyDict_keys_set_elem {V : Type} (d : list (string * V)) (k k' : string)
    (v : V) :
  k' ∈ PyDict.keys (PyDict.set d k v) -> k' = k \/ k' ∈ PyDict.keys d.
Proof.
  destruct (PyDict.mem d k) eqn:E.
  - rewrite PyDict_keys_set_present by exact E. auto.
  - rewrite PyDict_keys_set_absent by exact E.
    intros H. apply elem_of_app in H as [H | H]; [auto |].
    apply list_elem_of_singleton in H. auto.
Qed.

Lemma PyDict_mem_key {V : Type} (d : list (string * V)) (k : string) :
  PyDict.mem d k = true -> k ∈ PyDict.keys d.
Proof.
  unfold PyDict.mem. intros H.
  destruct (decide (k ∈ PyDict.keys d)) as [Hin | Hout]; [exact Hin |].
  apply PyDict_get_None in Hout. rewrite Hout in H. discriminate H.
Qed.

(** X14. In every state the program reaches, every pair that has an
    entry in [subscriptions] and the pair of every alert thread is a
    member of [SUPPORTED_PAIRS]. *)
Theorem only_supported_pairs (supported : list string) (np_exp : Q -> Q)
    (evs : list event) :
  let sys := run supported np_exp evs in
  (forall chat_id subs key,
      subscriptions (sys_state sys) !! chat_id = Some subs ->
      key ∈ PyDict.keys subs -> key ∈ supported)
  /\ (forall i w, sys_workers sys !! i = Some w ->
                  th_pair (w_thread w) ∈ supported).
Proof.
  cbv zeta. induction evs as [| ev evs [IHs IHw]] using rev_ind.
  - split.
    + intros c subs key H. simpl in H. rewrite lookup_empty in H. discriminate H.
    + intros i w H. simpl in H. rewrite lookup_nil in H. discriminate H.
  - unfold run. rewrite fold_left_app. simpl.
    fold (run supported np_exp evs).
    set (sys := run supported np_exp evs) in *. unfold step.
    destruct ev as [m | chat_id args | chat_id args | chat_id | i].
    + split; assumption.
    + unfold subscribe_command.
      destruct args as [| arg0 [| arg1 rest]];
        try (simpl; rewrite app_nil_r; split; assumption).
      destruct (py_int arg1) as [interval | e]; simpl; [| split; assumption].
      destruct (py_in (upper arg0) supported) eqn:Hin; simpl;
        [| rewrite app_nil_r; split; assumption].
      apply bool_decide_eq_true in Hin. split.
      * intros c subs key. destruct (decide (chat_id = c)) as [<- | Hc].
        -- rewrite lookup_insert_eq. intros [= <-] Hk.
           apply PyDict_keys_set_elem in Hk as [-> | Hk]; [exact Hin |].
           destruct (subscriptions (sys_state sys) !! chat_id) as [d |] eqn:E.
           ++ apply (IHs chat_id d key E Hk).
           ++ simpl in Hk. apply not_elem_of_nil in Hk. contradiction.
        -- rewrite lookup_insert_ne by exact Hc. apply IHs.
      * intros i w Hi. apply lookup_app_Some in Hi as [Hi | [_ Hi]].
        -- apply (IHw i w Hi).
        -- apply list_lookup_singleton_Some in Hi as [_ <-]. exact Hin.
    + split; [| exact IHw]. simpl. unfold unsubscribe_command.
      destruct args as [| arg0 rest]; [exact IHs |].
      destruct (subscriptions (sys_state sys) !! chat_id) as [d |] eqn:E;
        [| exact IHs].
      destruct (PyDict.mem d (upper arg0)) eqn:Hm; [| exact IHs].
      simpl. intros c subs key. destruct (decide (chat_id = c)) as [<- | Hc].
      * rewrite lookup_insert_eq. intros [= <-] Hk.
        apply PyDict_keys_set_elem in Hk as [-> | Hk].
        -- apply (IHs chat_id d _ E). apply PyDict_mem_key. exact Hm.
        -- apply (IHs chat_id d key E Hk).
      * rewrite lookup_insert_ne by exact Hc. apply IHs.
    + split; assumption.
    + destruct (sys_workers sys !! i) as [w |] eqn:Hi; [| split; assumption].
      pose proof (worker_step_keeps np_exp (sys_state sys) w) as Hk.
      cbv zeta in Hk.
      destruct (worker_step np_exp (sys_state sys) w) as [st' w'].
      cbn [fst snd] in Hk. destruct Hk as (_ & _ & Hsub & _ & Hth & _).
      split.
      * simpl. rewrite Hsub. exact IHs.
      * intros j wj Hj. simpl in Hj.
        destruct (decide (i = j)) as [<- | Hne].
        -- rewrite list_lookup_insert_eq in Hj
             by (apply lookup_lt_Some in Hi; exact Hi).
           injection Hj as <-. rewrite Hth. apply (IHw i w Hi).
        -- rewrite list_lookup_insert_ne in Hj by exact Hne.
           apply (IHw j wj Hj).
Qed.

(** ** What a worker leaves alone *)

Lemma read_enter {V : Type} (m : gmap Z (gmap string (option V)))
    (chat_id c : Z) (k : string) :
  read (match m !! chat_id with
        | None => <[chat_id := ∅]> m
        | Some _ => m
        end) c k = read m c k.
Proof.
  destruct (m !! chat_id) eqn:E; [reflexivity |]. unfold read.
  destruct (decide (chat_id = c)) as [<- | Hc].
  - rewrite lookup_insert_eq, E. simpl. rewrite lookup_empty. reflexivity.
  - rewrite lookup_insert_ne by exact Hc. reflexivity.
Qed.

Lemma iteration_frame (np_exp : Q -> Q) (st : state) (chat_id : Z)
    (key : string) (interval : Z) (c : Z) (k : string) :
  (c, k) <> (chat_id, key) ->
  let st' :=
    run_effects st (fst (alert_iteration np_exp st chat_id key interval)) in
  last_signal_of st' c k = last_signal_of st c k
  /\ last_price_of st' c k = last_price_of st c k.
Proof.
  intros Hne. cbv zeta. unfold last_signal_of, last_price_of.
  destruct (alert_iteration_effects np_exp st chat_id key interval)
    as [-> | [-> | [_ (sg & desc & img & price & [-> | ->])]]].
  - split; reflexivity.
  - split; reflexivity.
  - simpl. split; [apply read_alter_ne; exact Hne | reflexivity].
  - rewrite run_effects_store by apply send_of_is_send. simpl.
    split; apply read_alter_ne; exact Hne.
Qed.

Lemma alert_loop_frame (np_exp : Q -> Q) (fuel : nat) (st : state)
    (chat_id : Z) (key : string) (interval : Z) :
  let st' := fst (fst (alert_loop np_exp fuel st chat_id key interval)) in
  prices st' = prices st
  /\ subscriptions st' = subscriptions st
  /\ forall c k, (c, k) <> (chat_id, key) ->
                 last_signal_of st' c k = last_signal_of st c k
                 /\ last_price_of st' c k = last_price_of st c k.
Proof.
  cbv zeta. revert st. induction fuel as [| n IH]; intros st.
  - simpl. repeat split.
  - simpl. destruct (alert_running st chat_id key); [| simpl; repeat split].
    pose proof (iteration_frame np_exp st chat_id key interval) as Hfr.
    pose proof (run_effects_frame st
                  (fst (alert_iteration np_exp st chat_id key interval)))
      as [Hsub Hpr].
    destruct (alert_iteration np_exp st chat_id key interval)
      as [effects raised].
    cbn [fst] in *. cbv zeta in Hfr.
    destruct raised as [e |].
    + cbn [fst]. split; [exact Hpr |]. split; [exact Hsub |]. exact Hfr.
    + specialize (IH (run_effects st effects)).
      destruct (alert_loop np_exp n (run_effects st effects) chat_id key
                  interval) as [[st2 later] ending].
      cbn [fst] in *. destruct IH as (H1 & H2 & H3).
      split; [congruence |]. split; [congruence |].
      intros c k Hne. destruct (H3 c k Hne) as [-> ->]. apply Hfr. exact Hne.
Qed.

(** X15. A worker, from its start and for any number of iterations,
    never changes the prices or the subscriptions, and never changes the
    last signal or the last price of another chat or another pair. *)
Theorem worker_touches_only_its_pair (np_exp : Q -> Q) (fuel : nat)
    (st : state) (chat_id : Z) (key : string) (interval : Z) :
  let st' := fst (fst (alert_pair np_exp fuel st chat_id key interval)) in
  prices st' = prices st
  /\ subscriptions st' = subscriptions st
  /\ forall c k, (c, k) <> (chat_id, key) ->
                 last_signal_of st' c k = last_signal_of st c k
                 /\ last_price_of st' c k = last_price_of st c k.
Proof.
  cbv zeta. unfold alert_pair.
  destruct (alert_loop_frame np_exp fuel (alert_pair_enter st chat_id)
              chat_id key interval) as (H1 & H2 & H3).
  split; [exact H1 |]. split; [exact H2 |].
  intros c k Hne. destruct (H3 c k Hne) as [-> ->].
  unfold last_signal_of, last_price_of, alert_pair_enter. simpl.
  split; apply read_enter.
Qed.
